(** * S3PCmd: the S3 path model and the date-resolution engine of s3pcmd.py

    A shallow embedding of [S3Path], [S3DatePath] and the entry points of
    [S3BotoClient] that list, copy and write, followed by the properties
    established about them.

    Python values are represented as follows.
    - [str] is [String.string]: a sequence of characters whose code points
      are below 256.
    - [int] is [Z].
    - an exception raised by a call is the [Raise] branch of [result].
    - an object whose attributes are assigned after construction is a record
      that the mutating method returns next to its result. *)

From Stdlib Require Import String Ascii List ZArith Bool Lia Arith.
From Stdlib Require Import DecimalString DecimalPos Sorted.
Import ListNotations.

Local Open Scope list_scope.
Local Open Scope string_scope.

(* ================================================================== *)
(** ** Exceptions and fallible computations *)

Inductive exn : Type :=
| RuntimeError (msg : string)
| InvalidS3PathError (msg : string)
| AttributeError
| KeyError
| OverflowError
| IndexError.

Inductive result (A : Type) : Type :=
| Ok (a : A)
| Raise (e : exn).

Arguments Ok {A} a.
Arguments Raise {A} e.

Definition bind {A B : Type} (m : result A) (k : A -> result B) : result B :=
  match m with
  | Ok a => k a
  | Raise e => Raise e
  end.

Notation "x <- m ;; k" := (bind m (fun x => k))
  (at level 61, m at next level, right associativity).

(** A list comprehension whose body may raise: the first exception wins. *)
Fixpoint mapM {A B : Type} (f : A -> result B) (l : list A) : result (list B) :=
  match l with
  | [] => Ok []
  | a :: l' => b <- f a ;; bs <- mapM f l' ;; Ok (b :: bs)
  end.

(* ================================================================== *)
(** ** The methods of Python's [str] that the program calls *)

Module PyStr.

Definition slash : ascii := "/"%char.
Definition newline : ascii := "010"%char.

Definition is_slash (c : ascii) : bool := Ascii.eqb c slash.

(** [strip_prefix t s] is [Some r] when [s = t ++ r]. *)
Fixpoint strip_prefix (t s : string) : option string :=
  match t with
  | EmptyString => Some s
  | String a t' =>
      match s with
      | EmptyString => None
      | String c s' => if Ascii.eqb a c then strip_prefix t' s' else None
      end
  end.

(** [s.startswith(t)] *)
Definition startswith (s t : string) : bool :=
  match strip_prefix t s with Some _ => true | None => false end.

(** [t in s] *)
Fixpoint contains (t s : string) : bool :=
  startswith s t ||
  match s with
  | EmptyString => false
  | String _ s' => contains t s'
  end.

Fixpoint rev_acc (s acc : string) : string :=
  match s with
  | EmptyString => acc
  | String c s' => rev_acc s' (String c acc)
  end.

Definition rev (s : string) : string := rev_acc s EmptyString.

(** [s.endswith(t)] *)
Definition endswith (s t : string) : bool := startswith (rev s) (rev t).

(** [sep.join(l)] *)
Fixpoint join (sep : string) (l : list string) : string :=
  match l with
  | [] => ""
  | [x] => x
  | x :: l' => x ++ sep ++ join sep l'
  end.

(** [s.split(sep)] for a one-character separator: every separator ends a
    field, so adjacent separators give empty fields and the empty string gives one
    empty field. *)
Fixpoint split (sep : ascii) (s : string) : list string :=
  match s with
  | EmptyString => [""]
  | String c s' =>
      if Ascii.eqb c sep then "" :: split sep s'
      else match split sep s' with
           | [] => [String c ""]
           | f :: fs => String c f :: fs
           end
  end.

(** [c.isspace()] on the code points below 256. *)
Definition isspace (c : ascii) : bool :=
  let n := nat_of_ascii c in
  (((9 <=? n) && (n <=? 13)) || ((28 <=? n) && (n <=? 32))
   || (n =? 133) || (n =? 160))%nat.

Fixpoint lstrip (s : string) : string :=
  match s with
  | EmptyString => ""
  | String c s' => if isspace c then lstrip s' else s
  end.

(** [s.strip()] *)
Definition strip (s : string) : string := rev (lstrip (rev (lstrip s))).

(** [s.replace(old, new)]: every non-overlapping occurrence of [old],
    leftmost first.  [skip] counts the characters of the occurrence just
    replaced that are still to be passed over. *)
Fixpoint replace_from (old new : string) (skip : nat) (s : string) : string :=
  match s with
  | EmptyString => ""
  | String c s' =>
      match skip with
      | S k => replace_from old new k s'
      | O =>
          if startswith s old
          then new ++ replace_from old new (String.length old - 1) s'
          else String c (replace_from old new 0 s')
      end
  end.

(** With an empty [old], Python puts [new] before every character and at
    the end. *)
Fixpoint intersperse (new s : string) : string :=
  match s with
  | EmptyString => new
  | String c s' => new ++ String c (intersperse new s')
  end.

Definition replace (old new s : string) : string :=
  match old with
  | EmptyString => intersperse new s
  | String _ _ => replace_from old new 0 s
  end.

(** The longest prefix whose characters satisfy [p], and what follows it. *)
Fixpoint takewhile (p : ascii -> bool) (s : string) : string :=
  match s with
  | EmptyString => ""
  | String c s' => if p c then String c (takewhile p s') else ""
  end.

Fixpoint dropwhile (p : ascii -> bool) (s : string) : string :=
  match s with
  | EmptyString => ""
  | String c s' => if p c then dropwhile p s' else s
  end.

Fixpoint forall_chars (p : ascii -> bool) (s : string) : bool :=
  match s with
  | EmptyString => true
  | String c s' => p c && forall_chars p s'
  end.

(** [str(n)] for an [int]. *)
Definition str_of_int (n : Z) : string := NilZero.string_of_int (Z.to_int n).

Definition isdigit (c : ascii) : bool :=
  let n := nat_of_ascii c in ((48 <=? n) && (n <=? 57))%nat.

Definition digit_value (c : ascii) : Z := Z.of_nat (nat_of_ascii c) - 48.

Fixpoint int_of_digits (acc : Z) (s : string) : Z :=
  match s with
  | EmptyString => acc
  | String c s' => int_of_digits (10 * acc + digit_value c) s'
  end.

(** [int(s)] on a string of decimal digits, which is what the pattern's
    [\d+] group hands over.  The interpreter's configurable limit on the
    number of digits is not modelled. *)
Definition int_of_str (s : string) : Z := int_of_digits 0 s.

End PyStr.

(* ================================================================== *)
(** ** The fragment of Python's [re] that the two patterns use

    A backtracking matcher that lists the ways a pattern can match at the
    start of the subject in the order [re] tries them (greedy alternatives
    first); [re.match] takes the first one. *)

Module Re.

Inductive regex : Type :=
| Lit (t : string)                 (* literal text *)
| Cls (p : ascii -> bool)          (* one character of a class *)
| Seq (r1 r2 : regex)              (* r1 r2 *)
| Opt (r : regex)                  (* r? *)
| Star (p : ascii -> bool)         (* [class]* *)
| Plus (p : ascii -> bool)         (* [class]+ *)
| Group (n : nat) (r : regex).     (* capturing group number n *)

(** Group number and captured text, most recent first. *)
Definition captures : Type := list (nat * string).

(** One way to match: the captures, the text consumed, the text left. *)
Definition outcome : Type := (captures * string * string)%type.

Fixpoint star (p : ascii -> bool) (caps : captures) (s : string) : list outcome :=
  match s with
  | EmptyString => [(caps, "", "")]
  | String c s' =>
      (if p c
       then map (fun '(cs, w, r) => (cs, String c w, r)) (star p caps s')
       else [])
      ++ [(caps, "", s)]
  end.

Fixpoint run (r : regex) (caps : captures) (s : string) : list outcome :=
  match r with
  | Lit t =>
      match PyStr.strip_prefix t s with
      | Some s' => [(caps, t, s')]
      | None => []
      end
  | Cls p =>
      match s with
      | String c s' => if p c then [(caps, String c "", s')] else []
      | EmptyString => []
      end
  | Seq r1 r2 =>
      flat_map
        (fun '(c1, w1, s1) =>
           map (fun '(c2, w2, s2) => (c2, (w1 ++ w2)%string, s2)) (run r2 c1 s1))
        (run r1 caps s)
  | Opt r' => run r' caps s ++ [(caps, "", s)]
  | Star p => star p caps s
  | Plus p =>
      match s with
      | String c s' =>
          if p c
          then map (fun '(cs, w, r) => (cs, String c w, r)) (star p caps s')
          else []
      | EmptyString => []
      end
  | Group n r' =>
      map (fun '(cs, w, s') => ((n, w) :: cs, w, s')) (run r' caps s)
  end.

(** [pattern.match(s)]: [None] or the match object. *)
Definition re_match (r : regex) (s : string) : option outcome :=
  match run r [] s with
  | [] => None
  | o :: _ => Some o
  end.

(** [m.group(n)]: [None] when the group took no part in the match. *)
Fixpoint group (caps : captures) (n : nat) : option string :=
  match caps with
  | [] => None
  | (k, w) :: caps' => if Nat.eqb k n then Some w else group caps' n
  end.

(** [re.sub(pattern, repl, s)] for a literal replacement: scan left to
    right, replace each match and resume after it; an empty match is
    replaced and the scan moves one character on. *)
Fixpoint sub_from (r : regex) (repl : string) (skip : nat) (s : string) : string :=
  match s with
  | EmptyString =>
      match skip, re_match r "" with
      | O, Some _ => repl
      | _, _ => ""
      end
  | String c s' =>
      match skip with
      | S k => sub_from r repl k s'
      | O =>
          match re_match r s with
          | None => String c (sub_from r repl 0 s')
          | Some (_, w, _) =>
              match String.length w with
              | O => repl ++ String c (sub_from r repl 0 s')
              | S k => repl ++ sub_from r repl k s'
              end
          end
      end
  end.

Definition sub (r : regex) (repl s : string) : string := sub_from r repl 0 s.

(** Character classes of the two patterns. *)
Definition dot (c : ascii) : bool := negb (Ascii.eqb c PyStr.newline).
Definition not_slash (c : ascii) : bool := negb (PyStr.is_slash c).
Definition is_char (a : ascii) (c : ascii) : bool := Ascii.eqb c a.
Definition is_sign (c : ascii) : bool := Ascii.eqb c "-" || Ascii.eqb c "+".

End Re.

(* ================================================================== *)
(** ** The part of Python's [datetime] that the program calls

    Dates are those of the proleptic Gregorian calendar from 0001-01-01
    (ordinal 1) to 9999-12-31 (ordinal [MAXORDINAL]); the arithmetic is the
    one of the library's [_ymd2ord] and [_ord2ymd]. *)

Module PyDatetime.

Local Open Scope Z_scope.

Record datetime : Type := mkDatetime {
  year : Z; month : Z; day : Z;
  hour : Z; minute : Z; second : Z; microsecond : Z
}.

(** Every [timedelta] the program builds is [timedelta(days=value)]: a
    whole number of days, with no seconds and no microseconds. *)
Record timedelta : Type := mkTimedelta { days : Z }.

Definition MAXORDINAL : Z := 3652059.
Definition MAX_DELTA_DAYS : Z := 999999999.

Definition _DAYS_IN_MONTH : list Z :=
  [-1; 31; 28; 31; 30; 31; 30; 31; 31; 30; 31; 30; 31].
Definition _DAYS_BEFORE_MONTH : list Z :=
  [-1; 0; 31; 59; 90; 120; 151; 181; 212; 243; 273; 304; 334].

Definition _DI400Y : Z := 146097.
Definition _DI100Y : Z := 36524.
Definition _DI4Y : Z := 1461.

Definition table (t : list Z) (i : Z) : Z := nth (Z.to_nat i) t 0.

Definition b2z (b : bool) : Z := if b then 1 else 0.

Definition _is_leap (y : Z) : bool :=
  (y mod 4 =? 0) && (negb (y mod 100 =? 0) || (y mod 400 =? 0)).

Definition _days_before_year (y : Z) : Z :=
  let y := y - 1 in y * 365 + y / 4 - y / 100 + y / 400.

Definition _days_in_month (y m : Z) : Z :=
  if (m =? 2) && _is_leap y then 29 else table _DAYS_IN_MONTH m.

Definition _days_before_month (y m : Z) : Z :=
  table _DAYS_BEFORE_MONTH m + b2z ((2 <? m) && _is_leap y).

Definition _ymd2ord (y m d : Z) : Z :=
  _days_before_year y + _days_before_month y m + d.

Definition _ord2ymd (n : Z) : Z * Z * Z :=
  let n := n - 1 in
  let n400 := n / _DI400Y in
  let n := n mod _DI400Y in
  let y := n400 * 400 + 1 in
  let n100 := n / _DI100Y in
  let n := n mod _DI100Y in
  let n4 := n / _DI4Y in
  let n := n mod _DI4Y in
  let n1 := n / 365 in
  let n := n mod 365 in
  let y := y + n100 * 100 + n4 * 4 + n1 in
  if (n1 =? 4) || (n100 =? 4) then (y - 1, 12, 31)
  else
    let leapyear := (n1 =? 3) && (negb (n4 =? 24) || (n100 =? 3)) in
    let m := Z.shiftr (n + 50) 5 in
    let preceding := table _DAYS_BEFORE_MONTH m + b2z ((2 <? m) && leapyear) in
    if n <? preceding
    then
      let m := m - 1 in
      let preceding :=
        preceding - (table _DAYS_IN_MONTH m + b2z ((m =? 2) && leapyear)) in
      (y, m, n - preceding + 1)
    else (y, m, n - preceding + 1).

(** [dt.toordinal()] *)
Definition toordinal (dt : datetime) : Z :=
  _ymd2ord (year dt) (month dt) (day dt).

(** [timedelta(days=n)] *)
Definition timedelta_days (n : Z) : result timedelta :=
  if Z.abs n <=? MAX_DELTA_DAYS then Ok (mkTimedelta n) else Raise OverflowError.

(** [dt + td]: the day number moves, the time of day stays; a day number
    outside the calendar raises [OverflowError]. *)
Definition add (dt : datetime) (td : timedelta) : result datetime :=
  let n := toordinal dt + days td in
  if (0 <? n) && (n <=? MAXORDINAL)
  then
    let '(y, m, d) := _ord2ymd n in
    Ok (mkDatetime y m d (hour dt) (minute dt) (second dt) (microsecond dt))
  else Raise OverflowError.

(** [dt - td] is [dt + (-td)]. *)
Definition sub (dt : datetime) (td : timedelta) : result datetime :=
  add dt (mkTimedelta (- days td)).

(** [str(n).zfill(w)] for a non-negative [n]. *)
Definition zfill (w : nat) (n : Z) : string :=
  let s := PyStr.str_of_int n in
  (string_of_list_ascii (repeat "0"%char (w - String.length s)) ++ s)%string.

(** The directives of [strftime] that the program's formats use; [%Y] is
    the year as Python documents it, zero-padded to four digits. *)
Definition directive (d : ascii) (dt : datetime) : string :=
  if Ascii.eqb d "Y" then zfill 4 (year dt)
  else if Ascii.eqb d "m" then zfill 2 (month dt)
  else if Ascii.eqb d "d" then zfill 2 (day dt)
  else if Ascii.eqb d "H" then zfill 2 (hour dt)
  else if Ascii.eqb d "M" then zfill 2 (minute dt)
  else if Ascii.eqb d "S" then zfill 2 (second dt)
  else String "%" (String d "").

(** [dt.strftime(fmt)] *)
Fixpoint strftime (fmt : string) (dt : datetime) : string :=
  match fmt with
  | EmptyString => ""%string
  | String c fmt' =>
      if Ascii.eqb c "%"
      then match fmt' with
           | EmptyString => String c ""
           | String d fmt'' => (directive d dt ++ strftime fmt'' dt)%string
           end
      else String c (strftime fmt' dt)
  end.

(** The datetimes that Python's constructor accepts. *)
Definition valid (dt : datetime) : Prop :=
  1 <= year dt <= 9999 /\ 1 <= month dt <= 12 /\
  1 <= day dt <= _days_in_month (year dt) (month dt) /\
  0 <= hour dt <= 23 /\ 0 <= minute dt <= 59 /\ 0 <= second dt <= 59 /\
  0 <= microsecond dt <= 999999.



End PyDatetime.

(* ================================================================== *)
(** ** class S3Path *)

Import Re.

Record S3Path : Type := mkS3Path {
  proto : string;
  bucket : string;
  path : string
}.

(** [S3Path.S3PATH_PATTERN].  Group 1 is [s3], an optional [n] and [://];
    group 2 is one or more characters other than a slash; an optional slash
    follows; group 3 is the rest of the line. *)
Definition S3PATH_PATTERN : regex :=
  Seq (Group 1 (Seq (Lit "s3") (Seq (Opt (Cls (is_char "n"))) (Lit "://"))))
  (Seq (Group 2 (Plus not_slash))
  (Seq (Opt (Cls PyStr.is_slash))
       (Group 3 (Star dot)))).

(** [re.sub] of the pattern [\/\/+] by one slash. *)
Definition normalize_path (uri : string) : string :=
  Re.sub (Seq (Lit "/") (Plus PyStr.is_slash)) "/" uri.

(** [S3Path.__init__]: whatever goes wrong while the pattern's groups are
    unpacked is reported as a [RuntimeError] that quotes the URI.  The handle
    [s3_bucket] on the storage client is not part of the model. *)
Definition S3Path_init (uri : string) : result S3Path :=
  match re_match S3PATH_PATTERN uri with
  | Some (caps, _, _) =>
      match group caps 2, group caps 3 with
      | Some b, Some p => Ok (mkS3Path "s3" b (normalize_path p))
      | _, _ => Raise (RuntimeError ("Invliad S3 URI: %" ++ uri))
      end
  | None => Raise (RuntimeError ("Invliad S3 URI: %" ++ uri))
  end.

(** [S3Path.__str__] *)
Definition S3Path_str (self : S3Path) : string :=
  proto self ++ "://" ++ PyStr.join "/" [bucket self; path self].

(** [S3Path.__eq__] *)
Definition S3Path_eq (self other : S3Path) : bool :=
  String.eqb (path self) (path other) && String.eqb (bucket self) (bucket other).

(** [S3Path.is_file]: the body under the [lru_cache] decorator. *)
Definition is_file (self : S3Path) : bool :=
  negb (PyStr.endswith (path self) "/").

(** [S3Path.is_valid] *)
Definition is_valid (uri : string) : bool :=
  match re_match S3PATH_PATTERN uri with
  | Some _ => true
  | None => false
  end.

(** The storage client is seen through the calls made on it. *)
Inductive call : Type :=
| CopyObject (src_bucket src_key dst_bucket dst_key : string).

(** [S3Path.cp]: [listing] is the sequence of keys that [self.ls()] yields
    during the call. *)
Definition S3Path_cp (listing : list string) (self dest_path : S3Path)
    (excludes : list string) : list call :=
  flat_map
    (fun key =>
       if existsb (fun excluded => PyStr.endswith key excluded) excludes
       then []
       else
         let new_key := (path dest_path ++ PyStr.replace (path self) "" key)%string in
         [CopyObject (bucket self) key (bucket dest_path) new_key])
    listing.

Definition default_excludes : list string := ["_SUCCESS"].

(** [S3BotoClient.cp]: [ls] gives, for a source path, the keys its listing
    yields. *)
Definition S3BotoClient_cp (ls : S3Path -> list string)
    (s3_src_uri s3_dst_uri : string) : result (list call) :=
  if is_valid s3_src_uri && is_valid s3_dst_uri
  then
    s3_src_path <- S3Path_init s3_src_uri ;;
    s3_dst_path <- S3Path_init s3_dst_uri ;;
    if negb (S3Path_eq s3_src_path s3_dst_path)
    then Ok (S3Path_cp (ls s3_src_path) s3_src_path s3_dst_path default_excludes)
    else Ok []
  else
    Raise (InvalidS3PathError
             ("URI: " ++ s3_src_uri ++ " or " ++ s3_dst_uri ++ " is invalid format")).

(* ================================================================== *)
(** ** class S3DatePath *)

Import PyDatetime.

Inductive DateType : Type := DATEID | DATETIMEID.

Inductive DateOp : Type := NONE | PLUS | MINUS.

(** [DateType.name] *)
Definition DateType_name (dt : DateType) : string :=
  match dt with
  | DATEID => "DATEID"
  | DATETIMEID => "DATETIMEID"
  end.

(** [DateType[name]]: [None] stands for the [KeyError] of an unknown name,
    which the pattern's first group never is. *)
Definition DateType_of_name (name : string) : option DateType :=
  if String.eqb name "DATEID" then Some DATEID
  else if String.eqb name "DATETIMEID" then Some DATETIMEID
  else None.

(** [DateOp.from_str]: the label is a group of the match, so it may be
    [None]. *)
Definition from_str (label : option string) : DateOp :=
  match label with
  | Some l =>
      if String.eqb l "+" then PLUS
      else if String.eqb l "-" then MINUS
      else NONE
  | None => NONE
  end.

Definition DateOp_eqb (a b : DateOp) : bool :=
  match a, b with
  | NONE, NONE | PLUS, PLUS | MINUS, MINUS => true
  | _, _ => false
  end.

Record S3DateParam : Type := mkS3DateParam {
  idx : nat;
  dt : DateType;
  sign : DateOp;
  value : Z
}.

Record S3DateValue : Type := mkS3DateValue {
  v_idx : nat;
  token : string;
  v_value : string
}.

(** An [S3Path] with the two attributes that [S3DatePath.__init__] adds. *)
Record S3DatePath : Type := mkS3DatePath {
  s3path : S3Path;
  _path_lst : list string;
  _params : list S3DateParam
}.

(** [S3DatePath.PARAM_PATTERN]: any run of characters, an opening brace,
    group 1 made of [DATE], the optional group 2 [TIME] and [ID], the
    optional group 3 made of a sign (group 4) and digits (group 5), a closing
    brace, any run of characters. *)
Definition PARAM_PATTERN : regex :=
  Seq (Star dot)
  (Seq (Lit "{")
  (Seq (Group 1 (Seq (Lit "DATE") (Seq (Opt (Group 2 (Lit "TIME"))) (Lit "ID"))))
  (Seq (Opt (Group 3 (Seq (Group 4 (Cls is_sign)) (Group 5 (Plus PyStr.isdigit)))))
  (Seq (Lit "}")
       (Star dot))))).

Definition DATE_STR : string := "%Y-%m-%d".
Definition DATETIME_STR : string := "%Y-%m-%d_%H-%M-%S".

(** The body of the loop of [_parse_params] for the segment [val] at
    position [i]: the parameter it appends, if any. *)
Definition _parse_param (i : nat) (val : string) : result (option S3DateParam) :=
  if (PyStr.contains "{DATEID" val || PyStr.contains "{DATETIMEID" val)
     && PyStr.contains "}" val
  then
    match re_match PARAM_PATTERN val with
    | None => Raise AttributeError
    | Some (caps, _, _) =>
        match group caps 1 with
        | None => Raise KeyError
        | Some name =>
            match DateType_of_name name with
            | None => Raise KeyError
            | Some dtype =>
                let sign := from_str (group caps 4) in
                let value :=
                  match group caps 5 with
                  | Some digits =>
                      if String.eqb digits "" then 0%Z else PyStr.int_of_str digits
                  | None => 0%Z
                  end in
                Ok (Some (mkS3DateParam i dtype sign value))
            end
        end
    end
  else Ok None.

(** [S3DatePath._parse_params], with [i] the position of the first segment
    of [path_lst]. *)
Fixpoint _parse_params_from (i : nat) (path_lst : list string)
    : result (list S3DateParam) :=
  match path_lst with
  | [] => Ok []
  | val :: rest =>
      p <- _parse_param i val ;;
      params <- _parse_params_from (S i) rest ;;
      Ok (match p with Some x => x :: params | None => params end)
  end.

Definition _parse_params (path_lst : list string) : result (list S3DateParam) :=
  _parse_params_from 0 path_lst.

(** [S3DatePath.__init__] *)
Definition S3DatePath_init (uri : string) : result S3DatePath :=
  self <- S3Path_init uri ;;
  let path_lst :=
    filter (fun p => negb (String.eqb (PyStr.strip p) ""))
           (PyStr.split PyStr.slash (path self)) in
  params <- _parse_params path_lst ;;
  Ok (mkS3DatePath self path_lst params).

(** [S3DatePath._compute_offset] *)
Definition _compute_offset (d : datetime) (op : DateOp) (v : Z) : result datetime :=
  td <- timedelta_days v ;;
  if DateOp_eqb op MINUS then PyDatetime.sub d td else PyDatetime.add d td.

(** [S3DatePath._reconstruct_match_token] *)
Definition _reconstruct_match_token (param : S3DateParam) : string :=
  let lst := [DateType_name (dt param)] in
  let lst :=
    match sign param with
    | PLUS => (lst ++ ["+"; PyStr.str_of_int (value param)])%list
    | MINUS => (lst ++ ["-"; PyStr.str_of_int (value param)])%list
    | NONE => lst
    end in
  "{" ++ PyStr.join "" lst ++ "}".

(** [S3DatePath._extract_value] *)
Definition _extract_value (param : S3DateParam) (d : datetime) : result S3DateValue :=
  ts <- (if DateOp_eqb (sign param) NONE then Ok d
         else _compute_offset d (sign param) (value param)) ;;
  let ts_str :=
    match dt param with
    | DATEID => strftime DATE_STR ts
    | DATETIMEID => strftime DATETIME_STR ts
    end in
  let token := _reconstruct_match_token param in
  Ok (mkS3DateValue (idx param) token ts_str).

(** [lst[i] = f(lst[i])]: [None] is the [IndexError] of an index past the
    end. *)
Fixpoint update_at (i : nat) (f : string -> string) (lst : list string)
    : option (list string) :=
  match lst, i with
  | [], _ => None
  | x :: lst', O => Some (f x :: lst')
  | x :: lst', S j =>
      match update_at j f lst' with
      | Some l => Some (x :: l)
      | None => None
      end
  end.

(** The loop of [resolve_dateid] over the resolved values: it rewrites the
    segments in place, so the segments reached before an [IndexError] stay
    rewritten. *)
Fixpoint substitute (resolved_lst : list S3DateValue) (lst : list string)
    : list string * option exn :=
  match resolved_lst with
  | [] => (lst, None)
  | el :: rest =>
      match update_at (v_idx el) (PyStr.replace (token el) (v_value el)) lst with
      | Some lst' => substitute rest lst'
      | None => (lst, Some IndexError)
      end
  end.

(** [S3DatePath.resolve_dateid]: the object after the call and what the call
    returns.  The assignment to [self._path_lst[el.idx]] is an update of the
    object, which the next call sees. *)
Definition resolve_dateid (self : S3DatePath) (d : datetime)
    : S3DatePath * result string :=
  match mapM (fun param => _extract_value param d) (_params self) with
  | Raise e => (self, Raise e)
  | Ok resolved_lst =>
      let '(lst, err) := substitute resolved_lst (_path_lst self) in
      let self' := mkS3DatePath (s3path self) lst (_params self) in
      match err with
      | Some e => (self', Raise e)
      | None =>
          (self',
           Ok (proto (s3path self) ++ "://"
               ++ PyStr.join "/" [bucket (s3path self); PyStr.join "/" lst])%string)
      end
  end.

(* ================================================================== *)
(** ** The other operations of [S3Path] and of [S3BotoClient] *)

(** [content.encode("utf-8")] on the code points below 256: one byte below
    128, two bytes from 128 on. *)
Definition encode_utf8_char (c : ascii) : list Byte.byte :=
  let n := nat_of_ascii c in
  if (n <? 128)%nat then [byte_of_ascii c]
  else [byte_of_ascii (ascii_of_nat (192 + n / 64));
        byte_of_ascii (ascii_of_nat (128 + n mod 64))].

Fixpoint encode_utf8 (s : string) : list Byte.byte :=
  match s with
  | EmptyString => []
  | String c s' => (encode_utf8_char c ++ encode_utf8 s')%list
  end.

(** The requests made on the storage client: the copies of [S3Path.cp], the
    write of [S3Path.put] and the delete of [S3Path.rmr]. *)
Inductive request : Type :=
| Copy (c : call)
| PutObject (bkt key acl : string) (body : list Byte.byte)
| DeleteObjects (bkt prefix : string).

Definition ACL : string := "bucket-owner-full-control".

(** [S3Path.put] *)
Definition S3Path_put (self : S3Path) (postfix : string) (body : list Byte.byte)
    : list request :=
  [PutObject (bucket self) (normalize_path (path self ++ "/" ++ postfix)) ACL body].

(** [S3Path.rmr] *)
Definition S3Path_rmr (self : S3Path) : list request :=
  [DeleteObjects (bucket self) (path self)].

(** [S3Path.mv]: the copies of [cp], then the delete of [rmr]. *)
Definition S3Path_mv (listing : list string) (self to_path : S3Path)
    (excludes : list string) : list request :=
  (map Copy (S3Path_cp listing self to_path excludes) ++ S3Path_rmr self)%list.

(** One entry of a listing page: [Key] is always there, the other entries
    of the dictionary may be missing, and so may [DisplayName] inside
    [Owner]. *)
Record S3Object : Type := mkS3Object {
  Key : string;
  Size : option Z;
  Owner : option (option string);
  ETag : option string
}.

(** A page of the paginator: its [Contents], or [None] when the page has no
    such entry. *)
Definition page : Type := option (list S3Object).

(** [S3Path.ls], on the pages that the paginator returns for the bucket and
    the prefix: the generator ends at the first page without [Contents]. *)
Fixpoint S3Path_ls (pages : list page) : list S3Object :=
  match pages with
  | [] => []
  | None :: _ => []
  | Some contents :: rest => (contents ++ S3Path_ls rest)%list
  end.

Record S3ListContent : Type := mkS3ListContent {
  key : string;
  size : Z;
  owner : string;
  etag : string
}.

(** The entry that [S3BotoClient.ls] builds from a listed object. *)
Definition to_list_content (obj : S3Object) : S3ListContent :=
  mkS3ListContent
    (Key obj)
    (match Size obj with Some n => n | None => 0%Z end)
    (match Owner obj with Some (Some name) => name | _ => "" end)
    (match ETag obj with Some e => e | None => "" end).

Definition invalid_format (s3_uri : string) : exn :=
  InvalidS3PathError ("URI: " ++ s3_uri ++ " is invalid format").

(** [S3BotoClient.ls]: [paginate] gives the pages for a bucket and a prefix,
    [limit] is the non-negative number of entries asked for. *)
Definition S3BotoClient_ls (paginate : string -> string -> list page)
    (s3_uri : string) (limit : nat) : result (list S3ListContent) :=
  if negb (is_valid s3_uri) then Raise (invalid_format s3_uri)
  else
    s3_path <- S3Path_init s3_uri ;;
    Ok (firstn limit
          (map to_list_content
             (S3Path_ls (paginate (bucket s3_path) (path s3_path))))).

(** [S3BotoClient.add_flag_file] *)
Definition S3BotoClient_add_flag_file (s3_uri file_name content : string)
    : result (list request) :=
  if negb (is_valid s3_uri) then Raise (invalid_format s3_uri)
  else
    s3_path <- S3Path_init s3_uri ;;
    Ok (S3Path_put s3_path file_name (encode_utf8 content)).

Definition SUCCESS_FILE : string := "_SUCCESS".

(** Whether the last character of [s] is a slash; [prev] answers for the
    empty string. *)
Fixpoint ends_slash (prev : bool) (s : string) : bool :=
  match s with
  | EmptyString => prev
  | String c s' => ends_slash (PyStr.is_slash c) s'
  end.

(* ================================================================== *)
(** ** The vocabulary of the specification and of the proofs *)

(** A string is of the form scheme://bucket[/path] when it is an accepted
    scheme, the scheme separator, a non-empty bucket without a slash and then
    nothing or a slash and a path. *)
Definition uri_grammar (uri : string) : Prop :=
  exists scheme bkt rest,
    uri = scheme ++ "://" ++ bkt ++ rest /\
    (scheme = "s3" \/ scheme = "s3n") /\
    bkt <> "" /\
    PyStr.forall_chars Re.not_slash bkt = true /\
    (rest = "" \/ exists p, rest = String PyStr.slash p).

(** The scheme at the start of [uri], if it is an accepted one, and what
    follows it. *)
Definition strip_scheme (uri : string) : option (string * string) :=
  match PyStr.strip_prefix "s3://" uri with
  | Some r => Some ("s3://", r)
  | None =>
      match PyStr.strip_prefix "s3n://" uri with
      | Some r => Some ("s3n://", r)
      | None => None
      end
  end.

(** The slash at the start of [s], if there is one, and what follows it. *)
Definition optional_slash (s : string) : string * string :=
  match s with
  | String c s' => if PyStr.is_slash c then ("/", s') else ("", s)
  | EmptyString => ("", "")
  end.

(** Runs of slashes reduced to one slash; [prev] tells whether the character
    before [s] was a slash. *)
Fixpoint collapse (prev : bool) (s : string) : string :=
  match s with
  | EmptyString => ""
  | String c s' =>
      if PyStr.is_slash c
      then if prev then collapse true s' else String c (collapse true s')
      else String c (collapse false s')
  end.

(** A run of two or more consecutive separators occurs nowhere in [s]. *)
Definition no_double_slash (s : string) : Prop :=
  forall a b, s <> a ++ "//" ++ b.

(** [s] ends with the separator. *)
Definition ends_with_slash (s : string) : Prop :=
  exists a, s = a ++ "/".


(** A segment that survives the filter of [S3DatePath.__init__]. *)
Definition nonblank (p : string) : bool := negb (String.eqb (PyStr.strip p) "").

(** The first group of [S3PATH_PATTERN] and the pattern of
    [normalize_path]. *)
Definition scheme_re : regex :=
  Seq (Lit "s3") (Seq (Opt (Cls (is_char "n"))) (Lit "://")).

Definition slashes_re : regex := Seq (Lit "/") (Plus PyStr.is_slash).

(** The error of [S3Path.__init__] on [uri]. *)
Definition malformed (uri : string) : exn :=
  RuntimeError ("Invliad S3 URI: %" ++ uri).

(** The last step of [_ord2ymd]: month and day of the day numbered [n]
    (from 0) within its year. *)
Definition month_and_day (leapyear : bool) (n : Z) : Z * Z :=
  let m := Z.shiftr (n + 50) 5 in
  let preceding :=
    (table _DAYS_BEFORE_MONTH m + b2z ((2 <? m)%Z && leapyear))%Z in
  if (n <? preceding)%Z
  then
    let m := (m - 1)%Z in
    let preceding :=
      (preceding - (table _DAYS_IN_MONTH m + b2z ((m =? 2)%Z && leapyear)))%Z in
    (m, (n - preceding + 1)%Z)
  else (m, (n - preceding + 1)%Z).

(** The check run over every day of a year: the month and day found agree
    with the month tables. *)
Definition month_and_day_ok (leapyear : bool) (n : Z) : bool :=
  let '(m, d) := month_and_day leapyear n in
  ((1 <=? m) && (m <=? 12) && (1 <=? d)
   && (d <=? table _DAYS_IN_MONTH m + b2z ((m =? 2) && leapyear))
   && (table _DAYS_BEFORE_MONTH m + b2z ((2 <? m) && leapyear) + d =? n + 1))%Z.

(** The check run over every day of every month: the day of the year of
    the date is in the year, and [month_and_day] finds the date again. *)
Definition month_and_day_inv_ok (leapyear : bool) (m d : Z) : bool :=
  let doy :=
    (table _DAYS_BEFORE_MONTH m + b2z ((2 <? m)%Z && leapyear) + d - 1)%Z in
  implb (d <=? table _DAYS_IN_MONTH m + b2z ((m =? 2)%Z && leapyear))%Z
    ((0 <=? doy)%Z && (doy <? 365 + b2z leapyear)%Z
     && (if (doy <? 365)%Z
         then let '(m', d') := month_and_day leapyear doy in
              (m' =? m)%Z && (d' =? d)%Z
         else (m =? 12)%Z && (d =? 31)%Z)).

(** A decimal field of [strftime]: [w] digits. *)
Definition is_field (w : nat) (s : string) : bool :=
  Nat.eqb (String.length s) w && PyStr.forall_chars PyStr.isdigit s.

(** The layouts YYYY-MM-DD and YYYY-MM-DD_HH-MM-SS. *)
Definition formatted (k : DateType) (ts : datetime) : string :=
  match k with
  | DATEID =>
      zfill 4 (year ts) ++ "-" ++ zfill 2 (month ts) ++ "-" ++ zfill 2 (day ts)
  | DATETIMEID =>
      zfill 4 (year ts) ++ "-" ++ zfill 2 (month ts) ++ "-" ++ zfill 2 (day ts)
      ++ "_" ++ zfill 2 (hour ts) ++ "-" ++ zfill 2 (minute ts) ++ "-"
      ++ zfill 2 (second ts)
  end.

(** Every field of the layout of [ts] has its width and only digits. *)
Definition fields_ok (k : DateType) (ts : datetime) : bool :=
  is_field 4 (zfill 4 (year ts)) && is_field 2 (zfill 2 (month ts))
  && is_field 2 (zfill 2 (day ts))
  && match k with
     | DATEID => true
     | DATETIMEID =>
         is_field 2 (zfill 2 (hour ts)) && is_field 2 (zfill 2 (minute ts))
         && is_field 2 (zfill 2 (second ts))
     end.


(** The timestamp of the repository's tests, 2017-11-28T23:55:59.342380, and
    the same time of day one day later. *)
Definition test_timestamp : datetime := mkDatetime 2017 11 28 23 55 59 342380.
Definition next_day_timestamp : datetime := mkDatetime 2017 11 29 23 55 59 342380.


(** ** The vocabulary of the further properties *)

(** What it is for a word to match a pattern with given captures: the
    declarative reading of the patterns, against which the matcher is
    checked. *)
Inductive matches : regex -> string -> captures -> Prop :=
| M_Lit (t : string) : matches (Lit t) t []
| M_Cls (p : ascii -> bool) (c : ascii) :
    p c = true -> matches (Cls p) (String c "") []
| M_Seq (r1 r2 : regex) (w1 w2 : string) (c1 c2 : captures) :
    matches r1 w1 c1 -> matches r2 w2 c2 ->
    matches (Seq r1 r2) (w1 ++ w2) (c2 ++ c1)%list
| M_Opt_none (r : regex) : matches (Opt r) "" []
| M_Opt_some (r : regex) (w : string) (c : captures) :
    matches r w c -> matches (Opt r) w c
| M_Star (p : ascii -> bool) (w : string) :
    PyStr.forall_chars p w = true -> matches (Star p) w []
| M_Plus (p : ascii -> bool) (w : string) :
    w <> "" -> PyStr.forall_chars p w = true -> matches (Plus p) w []
| M_Group (n : nat) (r : regex) (w : string) (c : captures) :
    matches r w c -> matches (Group n r) w ((n, w) :: c).

(** Any character but the opening brace. *)
Definition not_lbrace (c : ascii) : bool := negb (Ascii.eqb c "{").

(** [PARAM_PATTERN] after its leading run of characters: the token and
    what follows it. *)
Definition TOKEN_RE : regex :=
  Seq (Lit "{")
  (Seq (Group 1 (Seq (Lit "DATE") (Seq (Opt (Group 2 (Lit "TIME"))) (Lit "ID"))))
  (Seq (Opt (Group 3 (Seq (Group 4 (Cls is_sign)) (Group 5 (Plus PyStr.isdigit)))))
  (Seq (Lit "}")
       (Star dot)))).

(** The text of a placeholder: the kind, then a sign and digits or
    nothing, in braces. *)
Definition placeholder_text (k : DateType) (off : option (ascii * string))
    : string :=
  "{" ++ DateType_name k
  ++ match off with None => "" | Some (sg, ds) => String sg ds end ++ "}".

Definition well_formed_offset (off : option (ascii * string)) : Prop :=
  match off with
  | None => True
  | Some (sg, ds) =>
      is_sign sg = true /\ ds <> "" /\
      PyStr.forall_chars PyStr.isdigit ds = true
  end.

(** The parameter that a placeholder at segment [i] spells. *)
Definition placeholder_of (i : nat) (k : DateType)
    (off : option (ascii * string)) : S3DateParam :=
  mkS3DateParam i k
    (match off with
     | None => NONE
     | Some (sg, _) => from_str (Some (String sg ""))
     end)
    (match off with None => 0%Z | Some (_, ds) => PyStr.int_of_str ds end).

(** The sign and digits that [_reconstruct_match_token] writes. *)
Definition offset_of (sg : DateOp) (n : Z) : option (ascii * string) :=
  match sg with
  | PLUS => Some ("+"%char, PyStr.str_of_int n)
  | MINUS => Some ("-"%char, PyStr.str_of_int n)
  | NONE => None
  end.

(** A segment of a path: plain text, or one placeholder between two plain
    texts. *)
Inductive segment : Type :=
| Plain (s : string)
| Hole (pre : string) (k : DateType) (sg : DateOp) (n : Z) (post : string).

Definition segment_text (seg : segment) : string :=
  match seg with
  | Plain s => s
  | Hole pre k sg n post =>
      pre ++ _reconstruct_match_token (mkS3DateParam 0 k sg n) ++ post
  end.

(** The plain texts hold no opening brace; the offset is a natural number,
    and it is zero where there is no sign. *)
Definition segment_ok (seg : segment) : Prop :=
  match seg with
  | Plain s => PyStr.forall_chars not_lbrace s = true
  | Hole pre k sg n post =>
      (0 <= n)%Z /\ (sg = NONE -> n = 0%Z) /\
      PyStr.forall_chars not_lbrace pre = true /\
      PyStr.forall_chars not_lbrace post = true
  end.

(** The parameters of the placeholders of [segs], whose first segment has
    position [i]. *)
Fixpoint params_of (i : nat) (segs : list segment) : list S3DateParam :=
  match segs with
  | [] => []
  | Plain _ :: rest => params_of (S i) rest
  | Hole _ k sg n _ :: rest => mkS3DateParam i k sg n :: params_of (S i) rest
  end.

(** The segment with the date of its placeholder at [d] in the place of
    the placeholder. *)
Definition segment_value (d : datetime) (seg : segment) : result string :=
  match seg with
  | Plain s => Ok s
  | Hole pre k sg n post =>
      v <- _extract_value (mkS3DateParam 0 k sg n) d ;;
      Ok (pre ++ v_value v ++ post)
  end.

(** The days that [_compute_offset] moves by: back for [MINUS], forward
    otherwise. *)
Definition shift (op : DateOp) (n : Z) : Z :=
  if DateOp_eqb op MINUS then (- n)%Z else n.

Definition opposite (op : DateOp) : DateOp :=
  match op with PLUS => MINUS | MINUS => PLUS | NONE => NONE end.

(* ================================================================== *)
(** * Properties *)

(** ** Strings *)

Module PyStrFacts.
Import PyStr.

Lemma append_nil_r (s : string) : s ++ "" = s.
Proof. induction s; simpl; congruence. Qed.

Lemma append_assoc (a b c : string) : (a ++ b) ++ c = a ++ (b ++ c).
Proof. induction a; simpl; congruence. Qed.

Lemma strip_prefix_spec (t s r : string) :
  strip_prefix t s = Some r <-> s = t ++ r.
Proof.
  revert s. induction t as [|a t IH]; intros s; simpl.
  - split; congruence.
  - destruct s as [|c s]; [split; discriminate|].
    destruct (Ascii.eqb_spec a c) as [->|Hne].
    + rewrite IH. split; congruence.
    + split; [discriminate | intros H; congruence].
Qed.

Lemma strip_prefix_app (t r : string) : strip_prefix t (t ++ r) = Some r.
Proof. apply strip_prefix_spec. reflexivity. Qed.

Lemma startswith_spec (s t : string) :
  startswith s t = true <-> exists r, s = t ++ r.
Proof.
  unfold startswith. destruct (strip_prefix t s) as [r|] eqn:E.
  - apply strip_prefix_spec in E. split; eauto.
  - split; [discriminate|]. intros [r Hr].
    apply strip_prefix_spec in Hr. congruence.
Qed.

Lemma rev_acc_app (s acc : string) : rev_acc s acc = rev s ++ acc.
Proof.
  unfold rev. revert acc. induction s as [|c s IH]; intros acc; simpl.
  - reflexivity.
  - rewrite IH, (IH (String c "")), append_assoc. reflexivity.
Qed.

Lemma rev_cons (c : ascii) (s : string) : rev (String c s) = rev s ++ String c "".
Proof. unfold rev at 1. simpl. apply rev_acc_app. Qed.

Lemma rev_app (a b : string) : rev (a ++ b) = rev b ++ rev a.
Proof.
  induction a as [|c a IH]; simpl.
  - rewrite append_nil_r. reflexivity.
  - rewrite !rev_cons, IH, append_assoc. reflexivity.
Qed.

Lemma rev_involutive (s : string) : rev (rev s) = s.
Proof.
  induction s as [|c s IH]; [reflexivity|].
  rewrite rev_cons, rev_app, IH. reflexivity.
Qed.

Lemma endswith_spec (s t : string) :
  endswith s t = true <-> exists a, s = a ++ t.
Proof.
  unfold endswith. rewrite startswith_spec. split.
  - intros [r Hr]. exists (rev r).
    rewrite <- (rev_involutive s), Hr, rev_app, rev_involutive. reflexivity.
  - intros [a ->]. exists (rev a). apply rev_app.
Qed.

Lemma takewhile_dropwhile (p : ascii -> bool) (s : string) :
  takewhile p s ++ dropwhile p s = s.
Proof.
  induction s as [|c s IH]; simpl; [reflexivity|].
  destruct (p c); simpl; congruence.
Qed.

Lemma takewhile_forall (p : ascii -> bool) (s : string) :
  forall_chars p (takewhile p s) = true.
Proof.
  induction s as [|c s IH]; simpl; [reflexivity|].
  destruct (p c) eqn:E; simpl; [rewrite E|]; auto.
Qed.

Lemma takewhile_app (p : ascii -> bool) (a b : string) :
  forall_chars p a = true ->
  takewhile p (a ++ b) = a ++ takewhile p b.
Proof.
  induction a as [|c a IH]; simpl; [reflexivity|].
  intros H. apply andb_true_iff in H as [-> H]. rewrite IH; auto.
Qed.

Lemma dropwhile_app (p : ascii -> bool) (a b : string) :
  forall_chars p a = true ->
  dropwhile p (a ++ b) = dropwhile p b.
Proof.
  induction a as [|c a IH]; simpl; [reflexivity|].
  intros H. apply andb_true_iff in H as [-> H]. auto.
Qed.

Lemma takewhile_id (p : ascii -> bool) (s : string) :
  forall_chars p s = true -> takewhile p s = s.
Proof.
  induction s as [|c s IH]; simpl; [reflexivity|].
  intros H. apply andb_true_iff in H as [-> H]. rewrite IH; auto.
Qed.

Lemma split_nonempty (sep : ascii) (s : string) : split sep s <> [].
Proof.
  destruct s as [|c s]; simpl; [discriminate|].
  destruct (Ascii.eqb c sep); [discriminate|].
  destruct (split sep s); discriminate.
Qed.

Lemma join_split (s : string) : join "/" (split slash s) = s.
Proof.
  induction s as [|c s IH]; [reflexivity|].
  simpl. destruct (Ascii.eqb_spec c slash) as [->|Hne].
  - pose proof (split_nonempty slash s) as Hs.
    destruct (split slash s) as [|f fs]; [contradiction|].
    simpl in *. rewrite IH. reflexivity.
  - pose proof (split_nonempty slash s) as Hs.
    destruct (split slash s) as [|f fs]; [contradiction|].
    destruct fs; simpl in *; rewrite <- IH; reflexivity.
Qed.

End PyStrFacts.

(** ** The matcher on the two patterns of [S3Path] *)

Module ReFacts.
Import PyStr PyStrFacts Re.

Ltac split_eqb :=
  repeat match goal with
         | |- context [Ascii.eqb ?a ?b] =>
             destruct (Ascii.eqb_spec a b); subst; cbn -[Ascii.eqb];
             try reflexivity; try congruence
         end.

Ltac step_char s :=
  destruct s as [|? s]; cbn -[Ascii.eqb]; [reflexivity|]; split_eqb.

Ltac unfold_seq :=
  change (run (Seq ?a ?b) ?c ?s) with
    (flat_map
       (fun '(c1, w1, s1) =>
          map (fun '(c2, w2, s2) => (c2, (w1 ++ w2)%string, s2)) (run b c1 s1))
       (run a c s)).

Ltac unfold_group n :=
  change (run (Group n ?r) ?c ?s) with
    (map (fun '(cs, w, s') => ((n, w) :: cs, w, s')) (run r c s)).

Lemma run_scheme (caps : captures) (s : string) :
  run scheme_re caps s =
    match strip_scheme s with
    | Some (sch, r) => [(caps, sch, r)]
    | None => []
    end.
Proof.
  unfold scheme_re, strip_scheme, is_char.
  do 7 (try step_char s).
Qed.

Lemma star_head (p : ascii -> bool) (caps : captures) (s : string) :
  exists tl, star p caps s = (caps, takewhile p s, dropwhile p s) :: tl.
Proof.
  induction s as [|c s [tl IH]]; simpl.
  - eexists; reflexivity.
  - destruct (p c); [rewrite IH|]; simpl; eexists; reflexivity.
Qed.

Lemma plus_run (p : ascii -> bool) (caps : captures) (s : string) :
  run (Plus p) caps s =
    match takewhile p s with
    | EmptyString => []
    | String _ _ =>
        (caps, takewhile p s, dropwhile p s) :: tl (run (Plus p) caps s)
    end.
Proof.
  destruct s as [|c s]; simpl; [reflexivity|].
  destruct (p c); [|reflexivity].
  destruct (star_head p caps s) as [tl' ->]. reflexivity.
Qed.

(** What [S3PATH_PATTERN.match] returns, in closed form: the bucket is the
    longest run without a slash after the scheme, the raw path is what
    follows the next slash, up to the end of the line. *)
Lemma re_match_S3PATH (uri : string) :
  re_match S3PATH_PATTERN uri =
    match strip_scheme uri with
    | None => None
    | Some (sch, r) =>
        match takewhile not_slash r with
        | EmptyString => None
        | String _ _ as b =>
            let '(sl, r2) := optional_slash (dropwhile not_slash r) in
            let g3 := takewhile dot r2 in
            Some ([(3, g3); (2, b); (1, sch)], sch ++ b ++ sl ++ g3,
                  dropwhile dot r2)
        end
    end.
Proof.
  unfold re_match, S3PATH_PATTERN.
  unfold_seq. unfold_group 1. fold scheme_re. rewrite run_scheme.
  destruct (strip_scheme uri) as [[sch r]|]; [|reflexivity].
  cbn [map flat_map]. rewrite app_nil_r.
  unfold_seq. unfold_group 2. rewrite plus_run.
  destruct (takewhile not_slash r) as [|a b]; [reflexivity|].
  cbn [map flat_map]. unfold optional_slash.
  destruct (dropwhile not_slash r) as [|c r1]; [reflexivity|].
  cbn [run flat_map map app].
  destruct (is_slash c) eqn:E; cbn [map flat_map app].
  - apply Ascii.eqb_eq in E. subst c.
    destruct (star_head dot ((2, String a b) :: [(1, sch)]) r1) as [tl' ->].
    reflexivity.
  - destruct (star_head dot ((2, String a b) :: [(1, sch)]) (String c r1))
      as [tl' ->].
    reflexivity.
Qed.

(** The pattern of [normalize_path] matches exactly at two or more slashes,
    and takes all of them. *)
Lemma re_match_slashes (s : string) :
  re_match slashes_re s =
    match s with
    | String c s1 =>
        if is_slash c
        then match takewhile is_slash s1 with
             | EmptyString => None
             | String _ _ as w =>
                 Some ([], String "/" w, dropwhile is_slash s1)
             end
        else None
    | EmptyString => None
    end.
Proof.
  unfold re_match, slashes_re. unfold_seq.
  destruct s as [|c s1]; [reflexivity|].
  change (run (Lit "/") [] (String c s1))
    with (match (if Ascii.eqb "/" c then Some s1 else None) with
          | Some s' => [([], "/", s')]
          | None => []
          end : list outcome).
  replace (is_slash c) with (Ascii.eqb "/" c) by apply Ascii.eqb_sym.
  destruct (Ascii.eqb "/" c); [|reflexivity].
  cbn [flat_map]. rewrite app_nil_r, plus_run.
  destruct (takewhile is_slash s1); reflexivity.
Qed.

End ReFacts.

(** ** [S3Path]: parsing, normalisation, validity *)

Module S3PathFacts.
Import PyStr PyStrFacts Re ReFacts.

Lemma collapse_no_leading_slash (s : string) (c : ascii) (t : string) :
  collapse true s = String c t -> is_slash c = false.
Proof.
  induction s as [|x s IH]; simpl; [discriminate|].
  destruct (is_slash x) eqn:E; [exact IH|].
  intros H. injection H as <- _. exact E.
Qed.

Lemma collapse_after_slash (s : string) :
  takewhile is_slash s = "" -> collapse true s = collapse false s.
Proof.
  destruct s as [|c s]; simpl; [reflexivity|].
  destruct (is_slash c); [discriminate | reflexivity].
Qed.

Lemma sub_from_collapse (s : string) :
  sub_from slashes_re "/" 0 s = collapse false s /\
  sub_from slashes_re "/" (String.length (takewhile is_slash s)) s
  = collapse true s.
Proof.
  induction s as [|c s [IH0 IHk]].
  - split; reflexivity.
  - assert (H0 : sub_from slashes_re "/" 0 (String c s)
                 = collapse false (String c s)).
    { cbn [sub_from]. rewrite re_match_slashes. cbn [collapse].
      destruct (is_slash c) eqn:E.
      - destruct (takewhile is_slash s) as [|a w] eqn:Ew.
        + rewrite IH0, collapse_after_slash by exact Ew.
          reflexivity.
        + cbn [String.length] in *. rewrite IHk.
          apply Ascii.eqb_eq in E. subst c. reflexivity.
      - rewrite IH0. reflexivity. }
    split; [exact H0|].
    cbn [takewhile]. destruct (is_slash c) eqn:E.
    + cbn [String.length sub_from collapse]. rewrite E. exact IHk.
    + cbn [String.length]. rewrite H0. cbn [collapse]. rewrite E. reflexivity.
Qed.

Lemma normalize_path_collapse (s : string) : normalize_path s = collapse false s.
Proof. apply (sub_from_collapse s). Qed.

Lemma collapse_no_double_slash (s : string) (prev : bool) :
  no_double_slash (collapse prev s).
Proof.
  unfold no_double_slash. revert prev.
  induction s as [|x s IH]; intros prev a b H.
  - destruct a; discriminate.
  - cbn [collapse] in H. destruct (is_slash x) eqn:E.
    + destruct prev; [exact (IH _ _ _ H)|].
      destruct a as [|c a]; cbn in H.
      * injection H as _ H.
        apply collapse_no_leading_slash in H. discriminate.
      * injection H as _ H. exact (IH _ _ _ H).
    + destruct a as [|c a]; cbn in H.
      * injection H as -> _. vm_compute in E. discriminate.
      * injection H as _ H. exact (IH _ _ _ H).
Qed.

Lemma collapse_idempotent (s : string) (prev : bool) :
  collapse prev (collapse prev s) = collapse prev s.
Proof.
  revert prev. induction s as [|x s IH]; intros prev; [reflexivity|].
  cbn [collapse]. destruct (is_slash x) eqn:E.
  - destruct prev; [apply IH|].
    cbn [collapse]. rewrite E, IH. reflexivity.
  - cbn [collapse]. rewrite E, IH. reflexivity.
Qed.

Lemma collapse_forall_chars (p : ascii -> bool) (s : string) (prev : bool) :
  forall_chars p s = true -> forall_chars p (collapse prev s) = true.
Proof.
  revert prev. induction s as [|x s IH]; intros prev; [reflexivity|].
  cbn [collapse forall_chars]. intros H. apply andb_true_iff in H as [Hx Hs].
  destruct (is_slash x); [destruct prev|]; cbn [forall_chars];
    try rewrite Hx; cbn [andb]; auto.
Qed.

Lemma normalize_path_no_double_slash (s : string) :
  no_double_slash (normalize_path s).
Proof. rewrite normalize_path_collapse. apply collapse_no_double_slash. Qed.

Lemma normalize_path_idempotent (s : string) :
  normalize_path (normalize_path s) = normalize_path s.
Proof. rewrite !normalize_path_collapse. apply collapse_idempotent. Qed.

(** [S3Path.__init__] in closed form. *)
Lemma S3Path_init_spec (uri : string) :
  S3Path_init uri =
    match strip_scheme uri with
    | None => Raise (malformed uri)
    | Some (_, r) =>
        match takewhile not_slash r with
        | EmptyString => Raise (malformed uri)
        | String _ _ as b =>
            Ok (mkS3Path "s3" b
                  (normalize_path
                     (takewhile dot
                        (snd (optional_slash (dropwhile not_slash r))))))
        end
    end.
Proof.
  unfold S3Path_init. rewrite re_match_S3PATH.
  destruct (strip_scheme uri) as [[sch r]|]; [|reflexivity].
  destruct (takewhile not_slash r); [reflexivity|].
  destruct (optional_slash (dropwhile not_slash r)). reflexivity.
Qed.

Lemma is_valid_spec (uri : string) :
  is_valid uri =
    match strip_scheme uri with
    | None => false
    | Some (_, r) =>
        match takewhile not_slash r with
        | EmptyString => false
        | String _ _ => true
        end
    end.
Proof.
  unfold is_valid. rewrite re_match_S3PATH.
  destruct (strip_scheme uri) as [[sch r]|]; [|reflexivity].
  destruct (takewhile not_slash r); [reflexivity|].
  destruct (optional_slash (dropwhile not_slash r)). reflexivity.
Qed.

(** Construction succeeds exactly on the valid URIs. *)
Lemma S3Path_init_valid (uri : string) :
  is_valid uri = true <-> exists p, S3Path_init uri = Ok p.
Proof.
  rewrite is_valid_spec, S3Path_init_spec.
  destruct (strip_scheme uri) as [[sch r]|].
  - destruct (takewhile not_slash r).
    + split; [discriminate | intros [p H]; discriminate].
    + split; eauto.
  - split; [discriminate | intros [p H]; discriminate].
Qed.

Lemma S3Path_init_invalid (uri : string) :
  is_valid uri = false -> S3Path_init uri = Raise (malformed uri).
Proof.
  rewrite is_valid_spec, S3Path_init_spec.
  destruct (strip_scheme uri) as [[sch r]|]; [|reflexivity].
  destruct (takewhile not_slash r); [reflexivity | discriminate].
Qed.

Lemma strip_scheme_spec (uri sch r : string) :
  strip_scheme uri = Some (sch, r) ->
  uri = sch ++ r /\ (sch = "s3://" \/ sch = "s3n://").
Proof.
  unfold strip_scheme.
  destruct (strip_prefix "s3://" uri) as [r1|] eqn:E1.
  - intros H. injection H as <- <-.
    apply strip_prefix_spec in E1. auto.
  - destruct (strip_prefix "s3n://" uri) as [r2|] eqn:E2; [|discriminate].
    intros H. injection H as <- <-.
    apply strip_prefix_spec in E2. auto.
Qed.

Lemma strip_scheme_s3 (r : string) : strip_scheme ("s3://" ++ r) = Some ("s3://", r).
Proof. reflexivity. Qed.

Lemma strip_scheme_s3n (r : string) : strip_scheme ("s3n://" ++ r) = Some ("s3n://", r).
Proof. reflexivity. Qed.

Lemma dropwhile_not_slash_head (s : string) :
  dropwhile not_slash s = "" \/ exists p, dropwhile not_slash s = String slash p.
Proof.
  induction s as [|c s IH]; [left; reflexivity|].
  cbn [dropwhile]. unfold not_slash at 1 3, is_slash.
  destruct (Ascii.eqb_spec c slash) as [->|Hne]; cbn [negb].
  - right. eexists. reflexivity.
  - exact IH.
Qed.

Lemma takewhile_bucket (bkt rest : string) :
  forall_chars not_slash bkt = true ->
  rest = "" \/ (exists p, rest = String slash p) ->
  takewhile not_slash (bkt ++ rest) = bkt /\
  dropwhile not_slash (bkt ++ rest) = rest.
Proof.
  intros Hb Hr. rewrite takewhile_app, dropwhile_app by exact Hb.
  destruct Hr as [->|[p ->]]; simpl; rewrite ?append_nil_r; auto.
Qed.

(** The pattern accepts exactly the strings of the form
    scheme://bucket[/path]. *)
Lemma is_valid_iff_grammar (uri : string) :
  is_valid uri = true <-> uri_grammar uri.
Proof.
  rewrite is_valid_spec. split.
  - destruct (strip_scheme uri) as [[sch r]|] eqn:E; [|discriminate].
    apply strip_scheme_spec in E as [-> Hs].
    destruct (takewhile not_slash r) as [|a b] eqn:Et; [discriminate|].
    intros _.
    exists (if String.eqb sch "s3://" then "s3" else "s3n"),
      (takewhile not_slash r), (dropwhile not_slash r).
    rewrite takewhile_dropwhile. repeat split.
    + destruct Hs as [->| ->]; reflexivity.
    + destruct Hs as [->| ->]; auto.
    + rewrite Et. discriminate.
    + apply takewhile_forall.
    + apply dropwhile_not_slash_head.
  - intros (scheme & bkt & rest & -> & Hs & Hne & Hb & Hr).
    destruct (takewhile_bucket bkt rest Hb Hr) as [Ht _].
    destruct Hs as [->| ->].
    + change ("s3" ++ "://" ++ bkt ++ rest) with ("s3://" ++ (bkt ++ rest)).
      rewrite strip_scheme_s3, Ht. destruct bkt; congruence.
    + change ("s3n" ++ "://" ++ bkt ++ rest) with ("s3n://" ++ (bkt ++ rest)).
      rewrite strip_scheme_s3n, Ht. destruct bkt; congruence.
Qed.

End S3PathFacts.

(** ** The calendar arithmetic of [datetime] *)

Module PyDatetimeFacts.
Import PyDatetime.
Local Open Scope Z_scope.

(** Goals about quotients and remainders by the constants of the calendar. *)
Ltac divmod := Z.div_mod_to_equations; lia.

(** Every day of a year, checked by computation. *)
Lemma month_and_day_checked (leapyear : bool) :
  forallb (fun k => month_and_day_ok leapyear (Z.of_nat k)) (seq 0 365) = true.
Proof. destruct leapyear; vm_compute; reflexivity. Qed.

(** The month and day found for day [n] of a year are those of the month
    tables. *)
Lemma month_and_day_spec (leapyear : bool) (n m d : Z) :
  0 <= n < 365 ->
  month_and_day leapyear n = (m, d) ->
  1 <= m <= 12 /\
  1 <= d <= table _DAYS_IN_MONTH m + b2z ((m =? 2) && leapyear) /\
  table _DAYS_BEFORE_MONTH m + b2z ((2 <? m) && leapyear) + d = n + 1.
Proof.
  intros Hn Hmd.
  pose proof (month_and_day_checked leapyear) as H.
  rewrite forallb_forall in H.
  specialize (H (Z.to_nat n)).
  rewrite Z2Nat.id in H by lia.
  assert (Hin : In (Z.to_nat n) (seq 0 365)) by (apply in_seq; lia).
  apply H in Hin. unfold month_and_day_ok in Hin. rewrite Hmd in Hin.
  repeat (apply andb_true_iff in Hin as [Hin ?]).
  lia.
Qed.

(** [_ord2ymd] with the constants written out and its last step named. *)
Lemma _ord2ymd_eq (n : Z) :
  _ord2ymd n =
    let n0 := n - 1 in
    let n400 := n0 / 146097 in
    let r400 := n0 mod 146097 in
    let n100 := r400 / 36524 in
    let r100 := r400 mod 36524 in
    let n4 := r100 / 1461 in
    let r4 := r100 mod 1461 in
    let n1 := r4 / 365 in
    let r := r4 mod 365 in
    let y := n400 * 400 + 1 + n100 * 100 + n4 * 4 + n1 in
    if (n1 =? 4) || (n100 =? 4) then (y - 1, 12, 31)
    else
      let '(m, d) :=
        month_and_day ((n1 =? 3) && (negb (n4 =? 24) || (n100 =? 3))) r in
      (y, m, d).
Proof.
  unfold _ord2ymd, month_and_day, _DI400Y, _DI100Y, _DI4Y. cbv zeta.
  destruct (_ || _); [reflexivity|].
  destruct (_ <? _); reflexivity.
Qed.

Lemma is_leap_spec (y : Z) :
  _is_leap y = true <-> (y mod 4 = 0 /\ (y mod 100 <> 0 \/ y mod 400 = 0)).
Proof.
  unfold _is_leap. rewrite andb_true_iff, orb_true_iff, negb_true_iff.
  rewrite !Z.eqb_eq, Z.eqb_neq. tauto.
Qed.

(** The leap years, read off the position of the year in its 400-year
    cycle: [y - 1 = 400 a + 100 b + 4 c + e]. *)
Lemma is_leap_decomposed (a b c e : Z) :
  0 <= b <= 3 -> 0 <= c <= 24 -> 0 <= e <= 3 ->
  _is_leap (400 * a + 100 * b + 4 * c + e + 1)
  = (e =? 3) && (negb (c =? 24) || (b =? 3)).
Proof.
  intros Hb Hc He. set (y := 400 * a + 100 * b + 4 * c + e + 1).
  apply eq_true_iff_eq. rewrite is_leap_spec.
  rewrite andb_true_iff, orb_true_iff, negb_true_iff, !Z.eqb_eq, Z.eqb_neq.
  assert (Hm4 : y mod 4 = 0 <-> e = 3) by (subst y; divmod).
  assert (Hm100 : e = 3 -> (y mod 100 = 0 <-> c = 24)) by (subst y; divmod).
  assert (Hm400 : e = 3 -> (y mod 400 = 0 <-> c = 24 /\ b = 3))
    by (subst y; divmod).
  destruct (Z.eq_dec c 24); tauto.
Qed.

Lemma days_in_month_eq (y m : Z) :
  _days_in_month y m = table _DAYS_IN_MONTH m + b2z ((m =? 2) && _is_leap y).
Proof.
  unfold _days_in_month.
  destruct (Z.eqb_spec m 2) as [->|]; destruct (_is_leap y); cbv [andb b2z];
    try reflexivity; lia.
Qed.

(** From a day number to a date: the date is a date of the calendar and
    [_ymd2ord] gives the day number back. *)
Lemma _ord2ymd_spec (n y m d : Z) :
  1 <= n <= MAXORDINAL ->
  _ord2ymd n = (y, m, d) ->
  1 <= y <= 9999 /\ 1 <= m <= 12 /\ 1 <= d <= _days_in_month y m /\
  _ymd2ord y m d = n.
Proof.
  unfold MAXORDINAL. intros Hn. rewrite _ord2ymd_eq. cbv zeta.
  pose proof (Z.div_mod (n - 1) 146097 ltac:(lia)) as E400.
  pose proof (Z.mod_pos_bound (n - 1) 146097 ltac:(lia)) as B400.
  set (n400 := (n - 1) / 146097) in *. set (r400 := (n - 1) mod 146097) in *.
  pose proof (Z.div_mod r400 36524 ltac:(lia)) as E100.
  pose proof (Z.mod_pos_bound r400 36524 ltac:(lia)) as B100.
  set (n100 := r400 / 36524) in *. set (r100 := r400 mod 36524) in *.
  pose proof (Z.div_mod r100 1461 ltac:(lia)) as E4.
  pose proof (Z.mod_pos_bound r100 1461 ltac:(lia)) as B4.
  set (n4 := r100 / 1461) in *. set (r4 := r100 mod 1461) in *.
  pose proof (Z.div_mod r4 365 ltac:(lia)) as E1.
  pose proof (Z.mod_pos_bound r4 365 ltac:(lia)) as B1.
  set (n1 := r4 / 365) in *. set (r := r4 mod 365) in *.
  clearbody n400 r400 n100 r100 n4 r4 n1 r.
  assert (0 <= n400 <= 24) by lia.
  assert (0 <= n100 <= 4) by lia.
  assert (0 <= n4 <= 24) by lia.
  assert (0 <= n1 <= 4) by lia.
  destruct ((n1 =? 4) || (n100 =? 4)) eqn:Especial.
  - intros Hy. injection Hy as <- <- <-.
    apply orb_true_iff in Especial. rewrite !Z.eqb_eq in Especial.
    set (y := n400 * 400 + 1 + n100 * 100 + n4 * 4 + n1 - 1).
    assert (Hleap : _is_leap y = true).
    { apply is_leap_spec. subst y.
      destruct Especial as [-> | ->].
      - assert (n4 <= 23) by lia. assert (n100 <= 3) by lia.
        split; [|left]; divmod.
      - assert (n4 = 0) by lia. assert (n1 = 0) by lia. subst n4 n1.
        split; [|right]; divmod. }
    unfold _days_in_month, _ymd2ord, _days_before_month, _days_before_year.
    rewrite Hleap.
    replace (table _DAYS_IN_MONTH 12) with 31 by reflexivity.
    replace (table _DAYS_BEFORE_MONTH 12) with 334 by reflexivity.
    replace ((12 =? 2) && true) with false by reflexivity.
    replace ((2 <? 12) && true) with true by reflexivity.
    cbv [b2z].
    subst y. destruct Especial as [-> | ->].
    + assert (n4 <= 23) by lia. assert (n100 <= 3) by lia. divmod.
    + assert (n4 = 0) by lia. assert (n1 = 0) by lia. subst n4 n1. divmod.
  - apply orb_false_iff in Especial. rewrite !Z.eqb_neq in Especial.
    set (L := (n1 =? 3) && (negb (n4 =? 24) || (n100 =? 3))).
    destruct (month_and_day L r) as [m0 d0] eqn:Emd.
    intros Hy. injection Hy as <- <- <-.
    apply month_and_day_spec in Emd as (Hm & Hd & Hsum); [|exact B1].
    set (y := n400 * 400 + 1 + n100 * 100 + n4 * 4 + n1) in *.
    assert (Hleap : _is_leap y = L).
    { subst L y.
      replace (n400 * 400 + 1 + n100 * 100 + n4 * 4 + n1)
        with (400 * n400 + 100 * n100 + 4 * n4 + n1 + 1) by lia.
      apply is_leap_decomposed; lia. }
    rewrite days_in_month_eq.
    unfold _ymd2ord, _days_before_month, _days_before_year.
    rewrite Hleap.
    repeat split; try lia.
    subst y. assert (n1 <= 3) by lia. assert (n100 <= 3) by lia.
    divmod.
Qed.

(** No month is longer than 31 days. *)
Lemma month_length_le_31 (leapyear : bool) (m : Z) :
  1 <= m <= 12 ->
  table _DAYS_IN_MONTH m + b2z ((m =? 2) && leapyear) <= 31.
Proof.
  intros Hm.
  assert (Hc : m = 1 \/ m = 2 \/ m = 3 \/ m = 4 \/ m = 5 \/ m = 6 \/ m = 7
               \/ m = 8 \/ m = 9 \/ m = 10 \/ m = 11 \/ m = 12) by lia.
  destruct leapyear;
    repeat (destruct Hc as [->|Hc]; [vm_compute; discriminate|]);
    subst; vm_compute; discriminate.
Qed.

Lemma days_in_month_le_31 (y m : Z) : 1 <= m <= 12 -> _days_in_month y m <= 31.
Proof. rewrite days_in_month_eq. apply month_length_le_31. Qed.

(** Every day of every month, checked by computation. *)
Lemma month_and_day_inv_checked (leapyear : bool) :
  forallb
    (fun m => forallb (fun d => month_and_day_inv_ok leapyear
                                  (Z.of_nat m) (Z.of_nat d)) (seq 1 31))
    (seq 1 12) = true.
Proof. destruct leapyear; vm_compute; reflexivity. Qed.

(** The day of the year of a date of the month tables, and the month and
    day found for it.  The last day of a leap year is day 365. *)
Lemma month_and_day_inv (leapyear : bool) (m d : Z) :
  1 <= m <= 12 ->
  1 <= d <= table _DAYS_IN_MONTH m + b2z ((m =? 2) && leapyear) ->
  let doy := table _DAYS_BEFORE_MONTH m + b2z ((2 <? m) && leapyear) + d - 1 in
  0 <= doy < 365 + b2z leapyear /\
  (doy < 365 -> month_and_day leapyear doy = (m, d)) /\
  (365 <= doy -> m = 12 /\ d = 31).
Proof.
  intros Hm Hd doy.
  pose proof (month_length_le_31 leapyear m Hm) as Hd31.
  pose proof (month_and_day_inv_checked leapyear) as H.
  rewrite forallb_forall in H.
  specialize (H (Z.to_nat m) ltac:(apply in_seq; lia)).
  rewrite forallb_forall in H.
  specialize (H (Z.to_nat d) ltac:(apply in_seq; lia)).
  rewrite !Z2Nat.id in H by lia.
  unfold month_and_day_inv_ok in H. fold doy in H.
  destruct Hd as [_ Hd]. apply Z.leb_le in Hd. rewrite Hd in H. cbn [implb] in H.
  apply andb_true_iff in H as [H H3]. apply andb_true_iff in H as [H1 H2].
  apply Z.leb_le in H1. apply Z.ltb_lt in H2.
  split; [lia|]. split.
  - intros Hlt. apply Z.ltb_lt in Hlt. rewrite Hlt in H3.
    destruct (month_and_day leapyear doy) as [m' d'].
    apply andb_true_iff in H3 as [Ha Hb].
    apply Z.eqb_eq in Ha, Hb. congruence.
  - intros Hge. apply Z.ltb_ge in Hge. rewrite Hge in H3.
    apply andb_true_iff in H3 as [Ha Hb].
    apply Z.eqb_eq in Ha, Hb. auto.
Qed.

(** Quotient and remainder of a number given as a multiple plus a rest. *)
Lemma div_mod_decomposed (k q r : Z) :
  0 <= r < k -> (k * q + r) / k = q /\ (k * q + r) mod k = r.
Proof.
  intros Hr.
  assert (Hq : (k * q + r) / k = q)
    by (symmetry; apply (Z.div_unique_pos _ _ q r); auto).
  split; [exact Hq|].
  pose proof (Z.div_mod (k * q + r) k ltac:(lia)) as E. rewrite Hq in E. lia.
Qed.

Ltac decompose_at k q r :=
  let Q := fresh "Q" in
  let R := fresh "R" in
  destruct (div_mod_decomposed k q r ltac:(lia)) as [Q R];
  rewrite Q, R; clear Q R.

(** From a date of the calendar to its day number: the day number is one
    of the calendar and [_ord2ymd] gives the date back. *)
Lemma _ymd2ord_range (y m d : Z) :
  1 <= y <= 9999 -> 1 <= m <= 12 -> 1 <= d <= _days_in_month y m ->
  1 <= _ymd2ord y m d <= MAXORDINAL /\
  _ord2ymd (_ymd2ord y m d) = (y, m, d).
Proof.
  intros Hy Hm Hd. rewrite days_in_month_eq in Hd.
  destruct (month_and_day_inv (_is_leap y) m d Hm Hd) as (Hdoy & Hlt & Hge).
  unfold _ymd2ord, _days_before_month, _days_before_year, MAXORDINAL.
  set (doy := table _DAYS_BEFORE_MONTH m + b2z ((2 <? m) && _is_leap y) + d - 1)
    in *.
  replace (table _DAYS_BEFORE_MONTH m + b2z ((2 <? m) && _is_leap y))
    with (doy + 1 - d) by (subst doy; lia).
  clearbody doy.
  (* y - 1 = 400 a + 100 b + 4 c + e *)
  pose proof (Z.div_mod (y - 1) 400 ltac:(lia)) as Ea.
  pose proof (Z.mod_pos_bound (y - 1) 400 ltac:(lia)) as Ba.
  set (a := (y - 1) / 400) in *. set (ra := (y - 1) mod 400) in *.
  pose proof (Z.div_mod ra 100 ltac:(lia)) as Eb.
  pose proof (Z.mod_pos_bound ra 100 ltac:(lia)) as Bb.
  set (b := ra / 100) in *. set (rb := ra mod 100) in *.
  pose proof (Z.div_mod rb 4 ltac:(lia)) as Ec.
  pose proof (Z.mod_pos_bound rb 4 ltac:(lia)) as Bc.
  set (c := rb / 4) in *. set (e := rb mod 4) in *.
  clearbody a ra b rb c e.
  assert (Hy' : y = 400 * a + 100 * b + 4 * c + e + 1) by lia.
  assert (Hdby : (y - 1) * 365 + (y - 1) / 4 - (y - 1) / 100 + a
                 = 146097 * a + 36524 * b + 1461 * c + 365 * e) by divmod.
  rewrite Hdby.
  assert (Hleap : _is_leap y = (e =? 3) && (negb (c =? 24) || (b =? 3)))
    by (rewrite Hy'; apply is_leap_decomposed; lia).
  replace (146097 * a + 36524 * b + 1461 * c + 365 * e + (doy + 1 - d) + d)
    with (146097 * a + 36524 * b + 1461 * c + 365 * e + doy + 1) by lia.
  assert (Hleap' : b2z (_is_leap y) = 1 -> e = 3 /\ (c <> 24 \/ b = 3)).
  { rewrite Hleap. destruct (Z.eqb_spec e 3); destruct (Z.eqb_spec c 24);
      destruct (Z.eqb_spec b 3); cbn; intros; try discriminate; auto. }
  assert (Hb2z : 0 <= b2z (_is_leap y) <= 1)
    by (destruct (_is_leap y); cbn; lia).
  split; [lia|].
  rewrite _ord2ymd_eq. cbv zeta.
  replace (146097 * a + 36524 * b + 1461 * c + 365 * e + doy + 1 - 1)
    with (146097 * a + (36524 * b + 1461 * c + 365 * e + doy)) by lia.
  decompose_at 146097 a (36524 * b + 1461 * c + 365 * e + doy).
  destruct (Z.lt_ge_cases doy 365) as [Hsmall | Hlast].
  - (* not the last day of a leap year *)
    replace (36524 * b + 1461 * c + 365 * e + doy)
      with (36524 * b + (1461 * c + 365 * e + doy)) by lia.
    decompose_at 36524 b (1461 * c + 365 * e + doy).
    replace (1461 * c + 365 * e + doy) with (1461 * c + (365 * e + doy)) by lia.
    decompose_at 1461 c (365 * e + doy).
    decompose_at 365 e doy.
    replace ((e =? 4) || (b =? 4)) with false
      by (symmetry; apply orb_false_iff; split; apply Z.eqb_neq; lia).
    rewrite <- Hleap, (Hlt Hsmall). f_equal. f_equal. lia.
  - (* 31 December of a leap year *)
    assert (doy = 365) by lia. subst doy.
    destruct (Hge Hlast) as [-> ->].
    destruct Hleap' as [He Hc]; [lia|]. subst e.
    destruct (Z.eq_dec c 24) as [Hc24 | Hc24].
    + (* of a year that is a multiple of 400 *)
      assert (b = 3) by tauto. subst b c.
      replace (36524 * 3 + 1461 * 24 + 365 * 3 + 365) with (36524 * 4 + 0)
        by reflexivity.
      decompose_at 36524 4 0.
      replace (0 mod 1461) with 0 by reflexivity.
      replace (0 / 1461) with 0 by reflexivity.
      replace (0 / 365) with 0 by reflexivity.
      replace ((0 =? 4) || (4 =? 4)) with true by reflexivity.
      f_equal. f_equal. lia.
    + replace (36524 * b + 1461 * c + 365 * 3 + 365)
        with (36524 * b + (1461 * c + 1460)) by lia.
      decompose_at 36524 b (1461 * c + 1460).
      decompose_at 1461 c 1460.
      replace (1460 / 365) with 4 by reflexivity.
      replace (4 =? 4) with true by reflexivity. cbn [orb].
      f_equal. f_equal. lia.
Qed.

(** The decimal fields of the two layouts, checked by computation. *)
Lemma zfill2_checked :
  forallb (fun k => is_field 2 (zfill 2 (Z.of_nat k))) (seq 0 100) = true.
Proof. vm_compute. reflexivity. Qed.

Lemma zfill4_checked :
  forallb (fun k => is_field 4 (zfill 4 (Z.of_nat k))) (seq 0 (Z.to_nat 10000)) = true.
Proof. vm_compute. reflexivity. Qed.

Lemma zfill2_field (n : Z) : 0 <= n <= 99 -> is_field 2 (zfill 2 n) = true.
Proof.
  intros Hn. pose proof zfill2_checked as H. rewrite forallb_forall in H.
  specialize (H (Z.to_nat n) ltac:(apply in_seq; lia)).
  rewrite Z2Nat.id in H by lia. exact H.
Qed.

Lemma zfill4_field (n : Z) : 0 <= n <= 9999 -> is_field 4 (zfill 4 n) = true.
Proof.
  intros Hn. pose proof zfill4_checked as H. rewrite forallb_forall in H.
  specialize (H (Z.to_nat n) ltac:(apply in_seq; lia)).
  rewrite Z2Nat.id in H by lia. exact H.
Qed.

Lemma valid_fields_ok (k : DateType) (ts : datetime) :
  valid ts -> fields_ok k ts = true.
Proof.
  intros (Hy & Hm & Hd & Hh & Hmi & Hs & _).
  pose proof (days_in_month_le_31 (year ts) (month ts) Hm).
  unfold fields_ok.
  rewrite zfill4_field, !zfill2_field by lia.
  destruct k; reflexivity.
Qed.

(** The two formats of [S3DatePath] give the two layouts. *)
Lemma strftime_layout (k : DateType) (ts : datetime) :
  match k with
  | DATEID => strftime DATE_STR ts
  | DATETIMEID => strftime DATETIME_STR ts
  end = formatted k ts.
Proof.
  destruct k; cbn -[zfill]; rewrite PyStrFacts.append_nil_r; reflexivity.
Qed.

(** Adding whole days inside the calendar: the day number moves by that
    many days, the date is a date of the calendar and the time of day is
    kept. *)
Lemma add_in_range (d : datetime) (k : Z) :
  valid d ->
  1 <= toordinal d + k <= MAXORDINAL ->
  exists ts,
    add d (mkTimedelta k) = Ok ts /\ valid ts /\
    toordinal ts = toordinal d + k /\
    hour ts = hour d /\ minute ts = minute d /\ second ts = second d /\
    microsecond ts = microsecond d.
Proof.
  intros (_ & _ & _ & Hh & Hmi & Hs & Hus) Hn.
  unfold add. cbn [days].
  replace ((0 <? toordinal d + k) && (toordinal d + k <=? MAXORDINAL)) with true
    by (symmetry; apply andb_true_iff; split;
        [apply Z.ltb_lt | apply Z.leb_le]; lia).
  destruct (_ord2ymd (toordinal d + k)) as [[y m] dd] eqn:E.
  apply _ord2ymd_spec in E as (Hy & Hm & Hd & Hord); [|exact Hn].
  eexists. split; [reflexivity|].
  unfold valid, toordinal. cbn. auto 10.
Qed.

Lemma add_out_of_range (d : datetime) (k : Z) :
  ~ (1 <= toordinal d + k <= MAXORDINAL) ->
  add d (mkTimedelta k) = Raise OverflowError.
Proof.
  intros Hn. unfold add. cbn [days].
  destruct (Z.ltb_spec 0 (toordinal d + k));
    destruct (Z.leb_spec (toordinal d + k) MAXORDINAL); cbn [andb];
    try reflexivity.
  exfalso. apply Hn. lia.
Qed.

(** Two datetimes of the calendar with the same day number have the same
    date. *)
Lemma toordinal_injective (a b : datetime) :
  valid a -> valid b -> toordinal a = toordinal b ->
  year a = year b /\ month a = month b /\ day a = day b.
Proof.
  intros (Hya & Hma & Hda & _) (Hyb & Hmb & Hdb & _) Heq.
  destruct (_ymd2ord_range _ _ _ Hya Hma Hda) as [_ Ha].
  destruct (_ymd2ord_range _ _ _ Hyb Hmb Hdb) as [_ Hb].
  unfold toordinal in Heq. rewrite Heq, Hb in Ha.
  injection Ha as -> -> ->. auto.
Qed.

End PyDatetimeFacts.

(* ================================================================== *)
(** * The claims about [S3Path] and [S3BotoClient] *)

Import PyStr PyStrFacts Re ReFacts S3PathFacts.

(** C7.  A string that is not of the form scheme://bucket[/path] with an
    accepted scheme is refused by the constructor with the error that quotes
    it, and [is_valid] is false on it; [is_valid] is false on no other
    string.  [is_valid] is a function of the string alone. *)
Theorem malformed_uri_rejected (uri : string) :
  (~ uri_grammar uri ->
   S3Path_init uri = Raise (RuntimeError ("Invliad S3 URI: %" ++ uri)) /\
   is_valid uri = false) /\
  (is_valid uri = false -> ~ uri_grammar uri).
Proof.
  split.
  - intros Hn.
    assert (Hv : is_valid uri = false).
    { destruct (is_valid uri) eqn:E; [|reflexivity].
      apply is_valid_iff_grammar in E. contradiction. }
    split; [|exact Hv]. apply S3Path_init_invalid. exact Hv.
  - intros Hv Hg. apply is_valid_iff_grammar in Hg. congruence.
Qed.

Lemma malformed_uri_rejected_witness :
  ~ uri_grammar "s4://bucket/path" /\
  S3Path_init "s4://bucket/path"
  = Raise (RuntimeError "Invliad S3 URI: %s4://bucket/path") /\
  is_valid "s4://bucket/path" = false.
Proof.
  assert (Hn : ~ uri_grammar "s4://bucket/path").
  { intros Hg. apply is_valid_iff_grammar in Hg. vm_compute in Hg. discriminate. }
  split; [exact Hn|].
  exact (proj1 (malformed_uri_rejected "s4://bucket/path") Hn).
Defined.

(** C8.  The path of a parsed URI has no run of two or more separators, and
    parsing the string form of the parsed path gives the same path again. *)
Theorem parse_normalises_idempotently (uri : string) (p : S3Path) :
  S3Path_init uri = Ok p ->
  no_double_slash (path p) /\
  exists q, S3Path_init (S3Path_str p) = Ok q /\ S3Path_eq p q = true /\ q = p.
Proof.
  rewrite S3Path_init_spec.
  destruct (strip_scheme uri) as [[sch r]|]; [|discriminate].
  destruct (takewhile not_slash r) as [|a b] eqn:Eb; [discriminate|].
  intros H. injection H as <-. cbn [path].
  split; [apply normalize_path_no_double_slash|].
  set (g3 := takewhile dot (snd (optional_slash (dropwhile not_slash r)))).
  exists (mkS3Path "s3" (String a b) (normalize_path g3)).
  assert (Hb : forall_chars not_slash (String a b) = true).
  { rewrite <- Eb. apply takewhile_forall. }
  assert (Hdot : forall_chars dot (normalize_path g3) = true).
  { rewrite normalize_path_collapse. apply collapse_forall_chars.
    apply takewhile_forall. }
  split; [|split; [|reflexivity]].
  - unfold S3Path_str. cbn [proto bucket path join].
    change ("s3" ++ "://" ++ String a b ++ "/" ++ normalize_path g3)
      with ("s3://" ++ (String a b ++ String slash (normalize_path g3))).
    rewrite S3Path_init_spec, strip_scheme_s3.
    destruct (takewhile_bucket (String a b) (String slash (normalize_path g3)) Hb)
      as [Ht Hd]; [right; eexists; reflexivity|].
    rewrite Ht, Hd. cbn [optional_slash snd].
    replace (is_slash slash) with true by reflexivity. cbn [snd].
    rewrite (takewhile_id dot _ Hdot), normalize_path_idempotent.
    reflexivity.
  - unfold S3Path_eq. rewrite !String.eqb_refl. reflexivity.
Qed.

Lemma parse_normalises_idempotently_witness :
  S3Path_init "s3://bucket/a//b///c" = Ok (mkS3Path "s3" "bucket" "a/b/c") /\
  no_double_slash "a/b/c" /\
  exists q,
    S3Path_init "s3://bucket/a/b/c" = Ok q /\
    S3Path_eq (mkS3Path "s3" "bucket" "a/b/c") q = true /\
    q = mkS3Path "s3" "bucket" "a/b/c".
Proof.
  split; [reflexivity|].
  apply (parse_normalises_idempotently "s3://bucket/a//b///c"
           (mkS3Path "s3" "bucket" "a/b/c")).
  reflexivity.
Defined.

(** C10.  When the two URIs parse to equal paths (same bucket, same
    normalised path; the schemes may differ), [S3BotoClient.cp] returns
    normally without any call on the storage client. *)
Theorem client_cp_same_path_is_noop
    (ls : S3Path -> list string) (src dst : string) (p q : S3Path) :
  S3Path_init src = Ok p ->
  S3Path_init dst = Ok q ->
  S3Path_eq p q = true ->
  S3BotoClient_cp ls src dst = Ok [].
Proof.
  intros Hp Hq He. unfold S3BotoClient_cp.
  assert (Hs : is_valid src = true) by (apply S3Path_init_valid; eauto).
  assert (Hd : is_valid dst = true) by (apply S3Path_init_valid; eauto).
  rewrite Hs, Hd, Hp, Hq. cbn [andb bind]. rewrite He. reflexivity.
Qed.

Lemma client_cp_same_path_is_noop_witness :
  S3BotoClient_cp (fun _ => ["a/b/key000"; "a/b/key001"])
    "s3://bucket/a//b/" "s3n://bucket/a/b/" = Ok [].
Proof.
  apply (client_cp_same_path_is_noop _ _ _
           (mkS3Path "s3" "bucket" "a/b/") (mkS3Path "s3" "bucket" "a/b/"));
    reflexivity.
Defined.




(* ================================================================== *)
(** * The claims about [S3DatePath] *)

Lemma S3Path_init_proto (uri : string) (p : S3Path) :
  S3Path_init uri = Ok p -> proto p = "s3".
Proof.
  rewrite S3Path_init_spec.
  destruct (strip_scheme uri) as [[sch r]|]; [|discriminate].
  destruct (takewhile not_slash r); [discriminate|].
  intros H. injection H as <-. reflexivity.
Qed.

Lemma S3DatePath_init_inv (uri : string) (self : S3DatePath) :
  S3DatePath_init uri = Ok self ->
  S3Path_init uri = Ok (s3path self) /\
  _path_lst self = filter nonblank (split slash (path (s3path self))) /\
  _parse_params (_path_lst self) = Ok (_params self).
Proof.
  unfold S3DatePath_init.
  destruct (S3Path_init uri) as [p|e]; [|discriminate]. cbn [bind].
  destruct (_parse_params _) as [params|e] eqn:E; [|discriminate]. cbn [bind].
  intros H. injection H as <-. cbn. auto.
Qed.

Lemma filter_all {A : Type} (f : A -> bool) (l : list A) :
  forallb f l = true -> filter f l = l.
Proof.
  induction l as [|x l IH]; [reflexivity|]. cbn.
  intros H. apply andb_true_iff in H as [-> H]. rewrite IH; auto.
Qed.

(** C3, as the code has it.  With no placeholder, [resolve_dateid] leaves
    the object as it is and returns [s3://], the bucket, a slash and the
    non-blank segments of the normalised path joined by single slashes.
    This is the string form of the path when no segment of the path is
    blank, and the bucket followed by a slash when there is no segment. *)
Theorem resolve_without_placeholders
    (uri : string) (self : S3DatePath) (d : datetime) :
  S3DatePath_init uri = Ok self ->
  _params self = [] ->
  let p := s3path self in
  let segments := filter nonblank (split slash (path p)) in
  resolve_dateid self d
  = (self, Ok ("s3://" ++ bucket p ++ "/" ++ join "/" segments)) /\
  (forallb nonblank (split slash (path p)) = true ->
   snd (resolve_dateid self d) = Ok (S3Path_str p)) /\
  (segments = [] ->
   snd (resolve_dateid self d) = Ok ("s3://" ++ bucket p ++ "/")).
Proof.
  intros Hinit Hparams p segments.
  destruct (S3DatePath_init_inv uri self Hinit) as (Hp & Hlst & _).
  apply S3Path_init_proto in Hp.
  assert (Hres : resolve_dateid self d
                 = (self, Ok ("s3://" ++ bucket p ++ "/" ++ join "/" segments))).
  { unfold resolve_dateid, segments, p. rewrite Hparams, <- Hlst.
    cbn [mapM substitute]. rewrite Hp.
    destruct self as [sp lst params]. cbn in Hparams. subst params.
    reflexivity. }
  split; [exact Hres|]. rewrite Hres. cbn [snd]. split.
  - intros Hall. unfold segments. rewrite (filter_all _ _ Hall), join_split.
    unfold S3Path_str, p. rewrite Hp. reflexivity.
  - intros ->. reflexivity.
Qed.

Lemma resolve_without_placeholders_witness :
  exists self,
    S3DatePath_init "s3://test-bucket//path//////p2" = Ok self /\
    _params self = [] /\
    resolve_dateid self test_timestamp = (self, Ok "s3://test-bucket/path/p2").
Proof.
  eexists. split; [reflexivity|]. split; [reflexivity|].
  apply (resolve_without_placeholders "s3://test-bucket//path//////p2");
    reflexivity.
Defined.

(** C3 as stated fails twice: a trailing separator is not kept, and a path
    with no segment resolves to the bucket followed by a slash. *)
Lemma resolve_without_placeholders_counterexample :
  exists s1 s2,
    S3DatePath_init "s3://bucket/path/p2/" = Ok s1 /\
    _params s1 = [] /\
    S3Path_str (s3path s1) = "s3://bucket/path/p2/" /\
    snd (resolve_dateid s1 test_timestamp) = Ok "s3://bucket/path/p2" /\
    S3DatePath_init "s3://bucket" = Ok s2 /\
    _params s2 = [] /\
    _path_lst s2 = [] /\
    snd (resolve_dateid s2 test_timestamp) = Ok "s3://bucket/" /\
    snd (resolve_dateid s2 test_timestamp) <> Ok "s3://bucket".
Proof.
  do 2 eexists. repeat split; try reflexivity. discriminate.
Qed.

(** Whatever it returns, [resolve_dateid] keeps the path and the placeholder
    list of the object; only the stored segments can change. *)
Lemma resolve_dateid_frame (self : S3DatePath) (d : datetime) :
  s3path (fst (resolve_dateid self d)) = s3path self /\
  _params (fst (resolve_dateid self d)) = _params self.
Proof.
  unfold resolve_dateid.
  destruct (mapM _ _) as [resolved_lst | e]; [|split; reflexivity].
  destruct (substitute resolved_lst (_path_lst self)) as [lst [e|]];
    split; reflexivity.
Qed.

(** C1 on a concrete object.  The first call of [resolve_dateid] replaces
    the stored segment by the resolved text; the placeholder list stays, but
    the second call, at another timestamp, finds no token and returns the
    first call's result, not what a fresh object returns. *)
Theorem resolve_dateid_rewrites_stored_segments :
  exists self self1,
    S3DatePath_init "s3://b/{DATEID}" = Ok self /\
    resolve_dateid self test_timestamp = (self1, Ok "s3://b/2017-11-28") /\
    _params self1 = _params self /\
    _path_lst self = ["{DATEID}"] /\
    _path_lst self1 = ["2017-11-28"] /\
    snd (resolve_dateid self1 next_day_timestamp) = Ok "s3://b/2017-11-28" /\
    snd (resolve_dateid self next_day_timestamp) = Ok "s3://b/2017-11-29".
Proof.
  do 2 eexists. repeat split; reflexivity.
Qed.

(** C6 on a concrete object.  For the offset spelled [01] the token is
    rebuilt from the integer 1, so it differs from the text in the path,
    nothing is replaced and the placeholder stays in the output. *)
Theorem leading_zero_token_not_replaced :
  exists self param,
    S3DatePath_init "s3://b/{DATEID-01}" = Ok self /\
    _path_lst self = ["{DATEID-01}"] /\
    _params self = [param] /\
    param = mkS3DateParam 0 DATEID MINUS 1 /\
    _reconstruct_match_token param = "{DATEID-1}" /\
    snd (resolve_dateid self test_timestamp) = Ok "s3://b/{DATEID-01}".
Proof.
  do 2 eexists. repeat split; reflexivity.
Qed.

(** A segment that fails the substring test of [_parse_params] gives no
    placeholder and no error. *)
Lemma parse_param_skips_plain_segment (i : nat) (val : string) :
  contains "}" val = false ->
  _parse_param i val = Ok None.
Proof.
  intros H. unfold _parse_param. rewrite H, andb_false_r. reflexivity.
Qed.

(** The placeholders of the repository's tests. *)
Example parse_params_of_tests :
  _parse_params ["path"; "p2"; "{DATEID}"]
  = Ok [mkS3DateParam 2 DATEID NONE 0] /\
  _parse_params ["path"; "p2"; "some_{DATETIMEID-1}_postfix"]
  = Ok [mkS3DateParam 2 DATETIMEID MINUS 1] /\
  _parse_params ["{DATEID+12}"; "x"; "{DATETIMEID}"]
  = Ok [mkS3DateParam 0 DATEID PLUS 12; mkS3DateParam 2 DATETIMEID NONE 0].
Proof. repeat split; reflexivity. Qed.

(** C9 on a concrete URI.  The URI is valid and its segment passes the
    substring test of [_parse_params], but the pattern does not match it:
    the construction raises [AttributeError]. *)
Theorem construction_fails_on_token_lookalike :
  is_valid "s3://b/{DATEIDxyz}" = true /\
  re_match PARAM_PATTERN "{DATEIDxyz}" = None /\
  S3DatePath_init "s3://b/{DATEIDxyz}" = Raise AttributeError.
Proof. repeat split; reflexivity. Qed.

(** The keys copied are the listed keys that end with no excluded postfix,
    in the order of the listing, one call each. *)
Lemma cp_copies_each_unexcluded_key_once
    (listing : list string) (self dest_path : S3Path) (excludes : list string) :
  map (fun c => match c with CopyObject _ key _ _ => key end)
      (S3Path_cp listing self dest_path excludes)
  = filter (fun key => negb (existsb (fun e => PyStr.endswith key e) excludes))
      listing.
Proof.
  unfold S3Path_cp. induction listing as [|key l IH]; [reflexivity|].
  cbn [flat_map filter].
  destruct (existsb (fun e => PyStr.endswith key e) excludes); cbn; congruence.
Qed.

(** C5 on a concrete listing.  The source path occurs twice in the key and
    both occurrences are removed, so the destination key is not the source
    key with its prefix exchanged; two different source keys are copied to
    the same destination key. *)
Theorem cp_removes_every_occurrence_of_source_path :
  S3Path_cp ["a/x/a/y"; "a/x/y"; "a/_SUCCESS"]
    (mkS3Path "s3" "b" "a/") (mkS3Path "s3" "b" "d/") default_excludes
  = [CopyObject "b" "a/x/a/y" "b" "d/x/y"; CopyObject "b" "a/x/y" "b" "d/x/y"] /\
  "d/x/y" <> "d/" ++ "x/a/y".
Proof. split; [reflexivity | discriminate]. Qed.

(* ================================================================== *)
(** * The effective timestamp of a placeholder *)

Import PyDatetimeFacts.

Local Open Scope Z_scope.

Lemma extract_value_of_timestamp (p : S3DateParam) (d ts : datetime) :
  (if DateOp_eqb (sign p) NONE then Ok d
   else _compute_offset d (sign p) (value p)) = Ok ts ->
  _extract_value p d
  = Ok (mkS3DateValue (idx p) (_reconstruct_match_token p) (formatted (dt p) ts)).
Proof.
  intros H. unfold _extract_value. rewrite H. cbn [bind].
  rewrite strftime_layout. reflexivity.
Qed.

Lemma timedelta_days_ok (v : Z) :
  0 <= v <= MAX_DELTA_DAYS -> timedelta_days v = Ok (mkTimedelta v).
Proof.
  intros Hv. unfold timedelta_days.
  replace (Z.abs v <=? MAX_DELTA_DAYS) with true
    by (symmetry; apply Z.leb_le; lia).
  reflexivity.
Qed.

Lemma timedelta_days_overflow (v : Z) :
  MAX_DELTA_DAYS < v -> timedelta_days v = Raise OverflowError.
Proof.
  intros Hv. unfold timedelta_days.
  replace (Z.abs v <=? MAX_DELTA_DAYS) with false
    by (symmetry; apply Z.leb_gt; lia).
  reflexivity.
Qed.


Lemma test_timestamp_valid : valid test_timestamp.
Proof. unfold valid. repeat split; apply Z.leb_le; reflexivity. Qed.



(* ================================================================== *)
(** * Further properties of the program *)

Local Close Scope Z_scope.

(** ** Normalisation *)

Lemma collapse_app (a b : string) (prev : bool) :
  collapse prev (a ++ b) = collapse prev a ++ collapse (ends_slash prev a) b.
Proof.
  revert prev. induction a as [|c a IH]; intros prev; [reflexivity|].
  cbn [append collapse ends_slash].
  destruct (is_slash c); [destruct prev|]; cbn [append]; rewrite IH; reflexivity.
Qed.

Lemma ends_slash_collapse (s : string) (prev : bool) :
  ends_slash prev (collapse prev s) = ends_slash prev s.
Proof.
  revert prev. induction s as [|c s IH]; intros prev; [reflexivity|].
  cbn [collapse ends_slash].
  destruct (is_slash c) eqn:E; [destruct prev|]; cbn [ends_slash];
    rewrite ?E; apply IH.
Qed.

Lemma ends_slash_spec (s : string) (prev : bool) :
  ends_slash prev s = true <-> (s = "" /\ prev = true) \/ ends_with_slash s.
Proof.
  unfold ends_with_slash. revert prev.
  induction s as [|c s IH]; intros prev; cbn [ends_slash].
  - split; [auto|]. intros [[_ H]|[a H]]; [exact H|].
    destruct a; discriminate.
  - rewrite IH. split.
    + intros [[-> H]|[a ->]].
      * right. exists "". apply Ascii.eqb_eq in H. subst c. reflexivity.
      * right. exists (String c a). reflexivity.
    + intros [[H _]|[a H]]; [discriminate|].
      destruct a as [|x a]; cbn in H; injection H as -> ->.
      * left. split; reflexivity.
      * right. exists a. reflexivity.
Qed.

Lemma ends_slash_endswith (s : string) : ends_slash false s = endswith s "/".
Proof.
  apply eq_true_iff_eq. rewrite ends_slash_spec, endswith_spec.
  unfold ends_with_slash. split; [|auto].
  intros [[_ H]|H]; [discriminate | exact H].
Qed.

Lemma no_double_slash_tail (c : ascii) (s : string) :
  no_double_slash (String c s) -> no_double_slash s.
Proof.
  intros H a b E. apply (H (String c a) b). rewrite E. reflexivity.
Qed.

Lemma collapse_fixed (s : string) (prev : bool) :
  no_double_slash s ->
  (prev = true -> takewhile is_slash s = "") ->
  collapse prev s = s.
Proof.
  revert prev. induction s as [|c s IH]; intros prev Hn Hp; [reflexivity|].
  cbn [collapse]. cbn [takewhile] in Hp.
  destruct (is_slash c) eqn:E.
  - destruct prev; [specialize (Hp eq_refl); discriminate|].
    rewrite IH; [reflexivity | eapply no_double_slash_tail; eauto |].
    intros _. destruct s as [|x s]; [reflexivity|]. cbn [takewhile].
    destruct (is_slash x) eqn:Ex; [|reflexivity].
    exfalso. apply Ascii.eqb_eq in E, Ex. subst. apply (Hn "" s). reflexivity.
  - rewrite IH; [reflexivity | eapply no_double_slash_tail; eauto |].
    discriminate.
Qed.

Lemma fixed_no_double_slash (s : string) :
  normalize_path s = s -> no_double_slash s.
Proof. intros H. rewrite <- H. apply normalize_path_no_double_slash. Qed.

(** X1.  [normalize_path] leaves a string as it is exactly when the string
    has no two slashes in a row. *)
Theorem normalize_path_fixed_iff (s : string) :
  normalize_path s = s <-> no_double_slash s.
Proof.
  split.
  - apply fixed_no_double_slash.
  - intros H. rewrite normalize_path_collapse.
    apply collapse_fixed; [exact H | discriminate].
Qed.

(** X2.  [normalize_path] keeps the last character a slash or not a slash:
    a prefix stays a prefix and a file stays a file. *)
Theorem normalize_path_keeps_trailing_slash (s : string) :
  endswith (normalize_path s) "/" = endswith s "/".
Proof.
  rewrite normalize_path_collapse, <- !ends_slash_endswith.
  apply ends_slash_collapse.
Qed.

(** ** Construction of an [S3Path] *)

(** X3.  What the constructor of [S3Path] builds: the scheme stored is s3,
    the bucket is not empty and has no slash, the path has no line break,
    and the URI is one of the two schemes, the bucket, and nothing or a
    slash and more. *)
Theorem S3Path_init_invariants (uri : string) (p : S3Path) :
  S3Path_init uri = Ok p ->
  proto p = "s3" /\
  bucket p <> "" /\
  forall_chars not_slash (bucket p) = true /\
  forall_chars dot (path p) = true /\
  exists sch rest,
    (sch = "s3://" \/ sch = "s3n://") /\
    uri = sch ++ bucket p ++ rest /\
    (rest = "" \/ exists q, rest = String slash q).
Proof.
  rewrite S3Path_init_spec.
  destruct (strip_scheme uri) as [[sch r]|] eqn:Es; [|discriminate].
  destruct (takewhile not_slash r) as [|a b] eqn:Eb; [discriminate|].
  intros H. injection H as <-. cbn [proto bucket path].
  apply strip_scheme_spec in Es as [-> Hs].
  split; [reflexivity|]. split; [discriminate|].
  split; [rewrite <- Eb; apply takewhile_forall|].
  split.
  - rewrite normalize_path_collapse. apply collapse_forall_chars.
    apply takewhile_forall.
  - exists sch, (dropwhile not_slash r). split; [exact Hs|]. split.
    + rewrite <- Eb, takewhile_dropwhile. reflexivity.
    + apply dropwhile_not_slash_head.
Qed.

Lemma S3Path_init_invariants_witness :
  proto (mkS3Path "s3" "test-bucket" "path/p2/") = "s3" /\
  bucket (mkS3Path "s3" "test-bucket" "path/p2/") <> "" /\
  forall_chars not_slash (bucket (mkS3Path "s3" "test-bucket" "path/p2/")) = true /\
  forall_chars dot (path (mkS3Path "s3" "test-bucket" "path/p2/")) = true /\
  exists sch rest,
    (sch = "s3://" \/ sch = "s3n://") /\
    "s3n://test-bucket/path//p2/"
    = sch ++ bucket (mkS3Path "s3" "test-bucket" "path/p2/") ++ rest /\
    (rest = "" \/ exists q, rest = String slash q).
Proof.
  apply (S3Path_init_invariants "s3n://test-bucket/path//p2/"). reflexivity.
Defined.

(** X4.  The schemes s3n and s3 are parsed alike: the same bucket, the
    same path and the scheme s3 in both cases. *)
Theorem legacy_scheme_parses_alike (r : string) (p : S3Path) :
  S3Path_init ("s3n://" ++ r) = Ok p <-> S3Path_init ("s3://" ++ r) = Ok p.
Proof.
  rewrite !S3Path_init_spec, strip_scheme_s3, strip_scheme_s3n.
  destruct (takewhile not_slash r); split; intros H; try discriminate; exact H.
Qed.

(** X5.  The path stops at the first line break of the URI: what follows
    it is dropped without an error. *)
Theorem path_is_cut_at_line_break (b p1 junk : string) :
  b <> "" ->
  forall_chars not_slash b = true ->
  forall_chars dot p1 = true ->
  S3Path_init ("s3://" ++ b ++ "/" ++ p1 ++ String newline junk)
  = Ok (mkS3Path "s3" b (normalize_path p1)).
Proof.
  intros Hne Hb Hp.
  rewrite S3Path_init_spec, strip_scheme_s3.
  destruct (takewhile_bucket b ("/" ++ p1 ++ String newline junk) Hb) as [Ht Hd].
  { right. eexists. reflexivity. }
  rewrite Ht, Hd. destruct b as [|a b]; [contradiction|].
  cbn [optional_slash append]. replace (is_slash "/") with true by reflexivity.
  cbn [snd]. rewrite takewhile_app by exact Hp.
  cbn [takewhile]. replace (dot newline) with false by reflexivity.
  rewrite append_nil_r. reflexivity.
Qed.

Lemma path_is_cut_at_line_break_witness :
  S3Path_init ("s3://" ++ "bucket" ++ "/" ++ "a/b" ++ String newline "c/d")
  = Ok (mkS3Path "s3" "bucket" (normalize_path "a/b")).
Proof.
  apply path_is_cut_at_line_break; [discriminate | reflexivity | reflexivity].
Defined.

(** ** [put] and [add_flag_file] *)

Lemma startswith_slash_takewhile (s : string) :
  startswith s "/" = false -> takewhile is_slash s = "".
Proof.
  destruct s as [|c s]; [reflexivity|].
  unfold startswith. cbn [strip_prefix takewhile]. unfold is_slash, slash.
  rewrite (Ascii.eqb_sym c). destruct (Ascii.eqb "/" c); [discriminate|reflexivity].
Qed.

(** X6.  The key that [put] writes, for a path without two slashes in a
    row and a postfix that does not start with a slash: the path, one slash
    unless the path already ends with one, and the normalized postfix. *)
Theorem put_key_under_path (self : S3Path) (postfix : string)
    (body : list Byte.byte) :
  no_double_slash (path self) ->
  startswith postfix "/" = false ->
  S3Path_put self postfix body
  = [PutObject (bucket self)
       (path self ++ (if is_file self then "/" else "") ++ normalize_path postfix)
       ACL body].
Proof.
  intros Hn Hp. unfold S3Path_put, is_file. f_equal. f_equal.
  rewrite !normalize_path_collapse, collapse_app.
  rewrite (collapse_fixed (path self) false Hn) by discriminate.
  rewrite ends_slash_endswith. f_equal.
  apply startswith_slash_takewhile in Hp.
  change ("/" ++ postfix) with (String "/" postfix). cbn [collapse].
  replace (is_slash "/") with true by reflexivity.
  rewrite (collapse_after_slash postfix Hp).
  destruct (endswith (path self) "/"); reflexivity.
Qed.

Lemma put_key_under_path_witness :
  S3Path_put (mkS3Path "s3" "bucket" "prefix/2019-09-01/") "_META_" []
  = [PutObject "bucket" "prefix/2019-09-01/_META_" ACL []] /\
  S3Path_put (mkS3Path "s3" "bucket" "") "_META_" []
  = [PutObject "bucket" "/_META_" ACL []].
Proof.
  split.
  - apply (put_key_under_path (mkS3Path "s3" "bucket" "prefix/2019-09-01/")).
    + apply fixed_no_double_slash. reflexivity.
    + reflexivity.
  - apply (put_key_under_path (mkS3Path "s3" "bucket" "")).
    + apply fixed_no_double_slash. reflexivity.
    + reflexivity.
Defined.

Lemma S3Path_init_no_double_slash (uri : string) (p : S3Path) :
  S3Path_init uri = Ok p -> no_double_slash (path p).
Proof.
  rewrite S3Path_init_spec.
  destruct (strip_scheme uri) as [[sch r]|]; [|discriminate].
  destruct (takewhile not_slash r); [discriminate|].
  intros H. injection H as <-. apply normalize_path_no_double_slash.
Qed.

(** X7.  [add_flag_file] raises [InvalidS3PathError] on an invalid URI;
    on a valid one it makes one write, of the encoded content, to the key of
    the file name under the path, with the owner of the bucket in full
    control. *)
Theorem add_flag_file_writes_one_object (s3_uri file_name content : string) :
  (is_valid s3_uri = false ->
   S3BotoClient_add_flag_file s3_uri file_name content
   = Raise (InvalidS3PathError ("URI: " ++ s3_uri ++ " is invalid format"))) /\
  (forall p,
      S3Path_init s3_uri = Ok p ->
      startswith file_name "/" = false ->
      S3BotoClient_add_flag_file s3_uri file_name content
      = Ok [PutObject (bucket p)
              (path p ++ (if is_file p then "/" else "")
               ++ normalize_path file_name)
              "bucket-owner-full-control" (encode_utf8 content)]).
Proof.
  unfold S3BotoClient_add_flag_file. split.
  - intros ->. reflexivity.
  - intros p Hp Hf.
    assert (Hv : is_valid s3_uri = true) by (apply S3Path_init_valid; eauto).
    rewrite Hv, Hp. cbn [negb bind]. f_equal.
    unfold S3Path_put, is_file. f_equal. f_equal.
    rewrite !normalize_path_collapse, collapse_app.
    rewrite (collapse_fixed (path p) false) ;
      [|eapply S3Path_init_no_double_slash; eauto | discriminate].
    rewrite ends_slash_endswith. f_equal.
    apply startswith_slash_takewhile in Hf.
    change ("/" ++ file_name) with (String "/" file_name). cbn [collapse].
    replace (is_slash "/") with true by reflexivity.
    rewrite (collapse_after_slash file_name Hf).
    destruct (endswith (path p) "/"); reflexivity.
Qed.

Lemma add_flag_file_writes_one_object_witness :
  S3BotoClient_add_flag_file "s4://bucket/path/" "_SUCCESS" ""
  = Raise (InvalidS3PathError "URI: s4://bucket/path/ is invalid format") /\
  S3BotoClient_add_flag_file "s3://bucket/foo//test/" "_SUCCESS" ""
  = Ok [PutObject "bucket" "foo/test/_SUCCESS" "bucket-owner-full-control" []].
Proof.
  split.
  - apply (proj1 (add_flag_file_writes_one_object "s4://bucket/path/" _ _)).
    reflexivity.
  - apply (proj2 (add_flag_file_writes_one_object "s3://bucket/foo//test/"
                    "_SUCCESS" "") (mkS3Path "s3" "bucket" "foo/test/"));
      reflexivity.
Defined.

(** ** [cp] and [mv] *)

Lemma intersperse_empty (s : string) : intersperse "" s = s.
Proof. induction s as [|c s IH]; [reflexivity|]. cbn. rewrite IH. reflexivity. Qed.

Lemma replace_from_skip (old new a s : string) :
  replace_from old new (String.length a) (a ++ s) = replace_from old new 0 s.
Proof. induction a as [|c a IH]; [reflexivity|]. cbn. exact IH. Qed.

Lemma replace_from_match (old new rest : string) :
  old <> "" ->
  replace_from old new 0 (old ++ rest) = new ++ replace_from old new 0 rest.
Proof.
  destruct old as [|a o]; [contradiction|]. intros _.
  change (String a o ++ rest) with (String a (o ++ rest)).
  cbn [replace_from].
  replace (startswith (String a (o ++ rest)) (String a o)) with true
    by (symmetry; apply startswith_spec; exists rest; reflexivity).
  replace (String.length (String a o) - 1) with (String.length o)
    by (cbn [String.length]; lia).
  rewrite replace_from_skip. reflexivity.
Qed.

Lemma contains_tail (t : string) (c : ascii) (s : string) :
  contains t (String c s) = false ->
  startswith (String c s) t = false /\ contains t s = false.
Proof. cbn [contains]. intros H. apply orb_false_iff in H. exact H. Qed.

Lemma replace_from_absent (old new s : string) :
  contains old s = false -> replace_from old new 0 s = s.
Proof.
  induction s as [|c s IH]; [reflexivity|].
  intros H. apply contains_tail in H as [Hs Hc].
  cbn [replace_from]. rewrite Hs, IH by exact Hc. reflexivity.
Qed.

Lemma endswith_empty (s : string) : endswith s "" = true.
Proof. apply endswith_spec. exists s. symmetry. apply append_nil_r. Qed.

Lemma cp_call_inv (listing : list string) (self dest : S3Path)
    (excludes : list string) (sb k db nk : string) :
  In (CopyObject sb k db nk) (S3Path_cp listing self dest excludes) ->
  sb = bucket self /\ db = bucket dest /\ In k listing /\
  existsb (fun e => endswith k e) excludes = false /\
  nk = path dest ++ replace (path self) "" k.
Proof.
  unfold S3Path_cp. rewrite in_flat_map. intros (key & Hin & Hc).
  destruct (existsb (fun e => endswith key e) excludes) eqn:E; [contradiction|].
  destruct Hc as [Hc|[]]. injection Hc as <- <- <- <-. auto.
Qed.

(** X8.  Every copy of [cp] goes from the bucket of the source to the
    bucket of the destination and takes a listed key; the new key is the
    path of the destination followed by the key when the source path is
    empty, and by what follows the source path in the key when the source
    path does not occur in that rest. *)
Theorem cp_destination_key (listing : list string) (self dest : S3Path)
    (excludes : list string) (sb k db nk : string) :
  In (CopyObject sb k db nk) (S3Path_cp listing self dest excludes) ->
  sb = bucket self /\ db = bucket dest /\ In k listing /\
  (path self = "" -> nk = path dest ++ k) /\
  (forall rest,
      path self <> "" ->
      k = path self ++ rest ->
      contains (path self) rest = false ->
      nk = path dest ++ rest).
Proof.
  intros H. apply cp_call_inv in H as (-> & -> & Hin & _ & ->).
  repeat split; auto.
  - intros ->. cbn [replace]. rewrite intersperse_empty. reflexivity.
  - intros rest Hne -> Hc. f_equal.
    destruct (path self) as [|a o] eqn:Ep; [contradiction|].
    cbn [replace]. rewrite replace_from_match by discriminate.
    rewrite replace_from_absent by exact Hc. reflexivity.
Qed.

Lemma cp_destination_key_witness :
  In (CopyObject "src" "prefix/2019-09-01/key000" "dst"
        "new_prefix/2019-09-02/key000")
     (S3Path_cp ["prefix/2019-09-01/key000"; "prefix/2019-09-01/_SUCCESS"]
        (mkS3Path "s3" "src" "prefix/2019-09-01")
        (mkS3Path "s3" "dst" "new_prefix/2019-09-02") ["_SUCCESS"]) /\
  "new_prefix/2019-09-02/key000" = "new_prefix/2019-09-02" ++ "/key000".
Proof.
  assert (H : In (CopyObject "src" "prefix/2019-09-01/key000" "dst"
                    "new_prefix/2019-09-02/key000")
                 (S3Path_cp
                    ["prefix/2019-09-01/key000"; "prefix/2019-09-01/_SUCCESS"]
                    (mkS3Path "s3" "src" "prefix/2019-09-01")
                    (mkS3Path "s3" "dst" "new_prefix/2019-09-02") ["_SUCCESS"]))
    by (left; reflexivity).
  split; [exact H|].
  apply (proj2 (proj2 (proj2 (proj2 (cp_destination_key _ _ _ _ _ _ _ _ H))))
           "/key000"); [discriminate | reflexivity | reflexivity].
Defined.

Lemma cp_all_excluded (listing : list string) (self dest : S3Path)
    (excludes : list string) :
  (forall k, In k listing -> existsb (fun e => endswith k e) excludes = true) ->
  S3Path_cp listing self dest excludes = [].
Proof.
  unfold S3Path_cp. induction listing as [|k l IH]; intros H; [reflexivity|].
  cbn [flat_map]. rewrite (H k) by (left; reflexivity).
  rewrite IH; [reflexivity|]. intros k' Hk. apply H. right. exact Hk.
Qed.

(** X9.  [mv] deletes the source whatever was copied: when every listed
    key is excluded, or when the empty string is among the excludes, it
    copies nothing and still deletes everything under the source path. *)
Theorem mv_deletes_what_it_did_not_copy (listing : list string)
    (self to_path : S3Path) (excludes : list string) :
  ((forall k, In k listing -> existsb (fun e => endswith k e) excludes = true) ->
   S3Path_mv listing self to_path excludes
   = [DeleteObjects (bucket self) (path self)]) /\
  (In "" excludes ->
   S3Path_mv listing self to_path excludes
   = [DeleteObjects (bucket self) (path self)]).
Proof.
  assert (H : (forall k, In k listing ->
                         existsb (fun e => endswith k e) excludes = true) ->
              S3Path_mv listing self to_path excludes
              = [DeleteObjects (bucket self) (path self)]).
  { intros Hall. unfold S3Path_mv. rewrite cp_all_excluded by exact Hall.
    reflexivity. }
  split; [exact H|].
  intros Hin. apply H. intros k _. apply existsb_exists.
  exists "". split; [exact Hin | apply endswith_empty].
Qed.

Lemma mv_deletes_what_it_did_not_copy_witness :
  S3Path_mv ["prefix/a/_SUCCESS"] (mkS3Path "s3" "b" "prefix/")
    (mkS3Path "s3" "b" "new/") ["_SUCCESS"]
  = [DeleteObjects "b" "prefix/"] /\
  S3Path_mv ["prefix/key000"; "prefix/key001"] (mkS3Path "s3" "b" "prefix/")
    (mkS3Path "s3" "b" "new/") [""]
  = [DeleteObjects "b" "prefix/"].
Proof.
  split.
  - apply (proj1 (mv_deletes_what_it_did_not_copy ["prefix/a/_SUCCESS"]
                    (mkS3Path "s3" "b" "prefix/") (mkS3Path "s3" "b" "new/")
                    ["_SUCCESS"])).
    intros k [<-|[]]. reflexivity.
  - apply (proj2 (mv_deletes_what_it_did_not_copy
                    ["prefix/key000"; "prefix/key001"]
                    (mkS3Path "s3" "b" "prefix/") (mkS3Path "s3" "b" "new/")
                    [""])).
    left. reflexivity.
Defined.

(** X10.  [mv] makes the copies of the keys that are not excluded, in the
    order of the listing, and then one delete of the source path; with no
    excludes, its default, every listed key is copied. *)
Theorem mv_copies_then_deletes (listing : list string) (self to_path : S3Path)
    (excludes : list string) :
  exists copies,
    S3Path_mv listing self to_path excludes
    = (map Copy copies ++ [DeleteObjects (bucket self) (path self)])%list /\
    map (fun c => match c with CopyObject _ k _ _ => k end) copies
    = filter (fun k => negb (existsb (fun e => endswith k e) excludes)) listing /\
    (excludes = [] ->
     map (fun c => match c with CopyObject _ k _ _ => k end) copies = listing).
Proof.
  exists (S3Path_cp listing self to_path excludes). split; [reflexivity|].
  pose proof (cp_copies_each_unexcluded_key_once listing self to_path excludes)
    as H.
  split; [exact H|]. intros ->. rewrite H.
  apply filter_all. apply forallb_forall. intros k _. reflexivity.
Qed.

Lemma mv_copies_then_deletes_witness :
  exists copies,
    S3Path_mv ["prefix/key000"; "prefix/_SUCCESS"] (mkS3Path "s3" "b" "prefix")
      (mkS3Path "s3" "b" "new_prefix") []
    = (map Copy copies ++ [DeleteObjects "b" "prefix"])%list /\
    map (fun c => match c with CopyObject _ k _ _ => k end) copies
    = ["prefix/key000"; "prefix/_SUCCESS"].
Proof.
  destruct (mv_copies_then_deletes ["prefix/key000"; "prefix/_SUCCESS"]
              (mkS3Path "s3" "b" "prefix") (mkS3Path "s3" "b" "new_prefix") [])
    as (copies & Hmv & _ & Hall).
  exists copies. split; [exact Hmv | exact (Hall eq_refl)].
Defined.

(** ** Listing *)

(** X11.  [S3Path.ls] yields the objects of the pages in order and stops
    at the first page without contents: the pages after it are not read. *)
Theorem ls_stops_at_page_without_contents
    (full : list (list S3Object)) (later : list page) :
  S3Path_ls (map Some full ++ None :: later)%list = concat full /\
  S3Path_ls (map Some full) = concat full.
Proof.
  induction full as [|c cs [IH1 IH2]]; [split; reflexivity|].
  cbn [map app S3Path_ls concat]. rewrite IH1, IH2. split; reflexivity.
Qed.

(** X12.  [S3BotoClient.ls] raises [InvalidS3PathError] on an invalid
    URI; on a valid one it returns the first [limit] listed objects, in
    order, and no more. *)
Theorem client_ls_returns_at_most_limit
    (paginate : string -> string -> list page) (s3_uri : string) (limit : nat) :
  (is_valid s3_uri = false ->
   S3BotoClient_ls paginate s3_uri limit
   = Raise (InvalidS3PathError ("URI: " ++ s3_uri ++ " is invalid format"))) /\
  (forall p,
      S3Path_init s3_uri = Ok p ->
      exists l,
        S3BotoClient_ls paginate s3_uri limit = Ok l /\
        List.length l
        = Nat.min limit (List.length (S3Path_ls (paginate (bucket p) (path p)))) /\
        map key l
        = firstn limit (map Key (S3Path_ls (paginate (bucket p) (path p))))).
Proof.
  unfold S3BotoClient_ls. split.
  - intros ->. reflexivity.
  - intros p Hp.
    assert (Hv : is_valid s3_uri = true) by (apply S3Path_init_valid; eauto).
    rewrite Hv, Hp. cbn [negb bind]. eexists. split; [reflexivity|]. split.
    + rewrite length_firstn, length_map. reflexivity.
    + rewrite <- firstn_map, map_map. reflexivity.
Qed.

Lemma client_ls_returns_at_most_limit_witness :
  exists l,
    S3BotoClient_ls
      (fun _ _ => [Some [mkS3Object "foo/test/key000" (Some 0%Z) None None;
                         mkS3Object "foo/test/key001" None None None];
                   Some [mkS3Object "foo/test/key002" None None None]])
      "s3://FOO-TEST-BUCKET/foo/test/" 2 = Ok l /\
    List.length l = 2 /\
    map key l = ["foo/test/key000"; "foo/test/key001"].
Proof.
  exact (proj2 (client_ls_returns_at_most_limit _ "s3://FOO-TEST-BUCKET/foo/test/" 2)
           (mkS3Path "s3" "FOO-TEST-BUCKET" "foo/test/") eq_refl).
Defined.

(** X13.  [S3BotoClient.cp] raises [InvalidS3PathError], naming both
    URIs, when one of them is invalid; when it returns, every copy it made
    goes from the bucket of the source to the bucket of the destination and
    takes a listed key that does not end with the name of the flag file. *)
Theorem client_cp_outcomes (ls : S3Path -> list string) (src dst : string) :
  (is_valid src && is_valid dst = false ->
   S3BotoClient_cp ls src dst
   = Raise (InvalidS3PathError
              ("URI: " ++ src ++ " or " ++ dst ++ " is invalid format"))) /\
  (forall calls,
      S3BotoClient_cp ls src dst = Ok calls ->
      exists p q,
        S3Path_init src = Ok p /\ S3Path_init dst = Ok q /\
        forall sb k db nk,
          In (CopyObject sb k db nk) calls ->
          sb = bucket p /\ db = bucket q /\ In k (ls p) /\
          endswith k "_SUCCESS" = false).
Proof.
  unfold S3BotoClient_cp. split.
  - intros ->. reflexivity.
  - intros calls. destruct (is_valid src && is_valid dst); [|discriminate].
    destruct (S3Path_init src) as [p|e]; [|discriminate]. cbn [bind].
    destruct (S3Path_init dst) as [q|e]; [|discriminate]. cbn [bind].
    intros H. exists p, q. split; [reflexivity|]. split; [reflexivity|].
    intros sb k db nk Hin.
    destruct (negb (S3Path_eq p q)); injection H as <-; [|contradiction].
    apply cp_call_inv in Hin as (-> & -> & Hk & Hex & _).
    unfold default_excludes in Hex. cbn [existsb] in Hex.
    apply orb_false_iff in Hex as [Hex _]. auto.
Qed.

Lemma client_cp_outcomes_witness :
  S3BotoClient_cp (fun _ => ["foo/key000"]) "s4://b/foo/" "s3://b/bar/"
  = Raise (InvalidS3PathError
             "URI: s4://b/foo/ or s3://b/bar/ is invalid format") /\
  exists p q,
    S3Path_init "s3://b/foo/" = Ok p /\ S3Path_init "s3://c/bar/" = Ok q /\
    forall sb k db nk,
      In (CopyObject sb k db nk)
         [CopyObject "b" "foo/key000" "c" "bar/key000"] ->
      sb = bucket p /\ db = bucket q /\
      In k ["foo/key000"; "foo/_SUCCESS"] /\
      endswith k "_SUCCESS" = false.
Proof.
  split.
  - apply (proj1 (client_cp_outcomes _ "s4://b/foo/" "s3://b/bar/")).
    reflexivity.
  - apply (proj2 (client_cp_outcomes (fun _ => ["foo/key000"; "foo/_SUCCESS"])
                    "s3://b/foo/" "s3://c/bar/")
             [CopyObject "b" "foo/key000" "c" "bar/key000"]).
    reflexivity.
Defined.


(** ** The loop of [resolve_dateid] *)

Lemma update_at_spec (f : string -> string) (lst : list string) (i : nat) :
  i < List.length lst ->
  exists lst',
    update_at i f lst = Some lst' /\
    List.length lst' = List.length lst /\
    nth_error lst' i = option_map f (nth_error lst i) /\
    forall j, j <> i -> nth_error lst' j = nth_error lst j.
Proof.
  revert i. induction lst as [|x lst IH]; intros i Hi; [cbn in Hi; lia|].
  destruct i as [|i].
  - eexists. split; [reflexivity|]. split; [reflexivity|]. split; [reflexivity|].
    intros [|j] Hj; [contradiction | reflexivity].
  - destruct (IH i) as (l & Hu & Hl & Hn & Hf); [cbn in Hi; lia|].
    exists (x :: l). cbn [update_at]. rewrite Hu.
    split; [reflexivity|]. split; [cbn; congruence|]. split; [exact Hn|].
    intros [|j] Hj; [reflexivity|]. cbn. apply Hf. congruence.
Qed.

(** With distinct positions inside the list, the loop rewrites each of its
    segments once and no other. *)
Lemma substitute_spec (resolved_lst : list S3DateValue) (lst : list string) :
  Forall (fun el => v_idx el < List.length lst) resolved_lst ->
  NoDup (map v_idx resolved_lst) ->
  exists lst',
    substitute resolved_lst lst = (lst', None) /\
    List.length lst' = List.length lst /\
    (forall el, In el resolved_lst ->
                nth_error lst' (v_idx el)
                = option_map (replace (token el) (v_value el))
                    (nth_error lst (v_idx el))) /\
    (forall j, (forall el, In el resolved_lst -> v_idx el <> j) ->
               nth_error lst' j = nth_error lst j).
Proof.
  revert lst. induction resolved_lst as [|el rl IH]; intros lst Hall Hnd.
  - exists lst. repeat split; auto. intros el [].
  - inversion Hall as [|? ? Hel Hrl]; subst.
    inversion Hnd as [|? ? Hnotin Hnd']; subst.
    destruct (update_at_spec (replace (token el) (v_value el)) lst (v_idx el) Hel)
      as (l1 & Hu & Hl1 & Hn1 & Hf1).
    destruct (IH l1) as (l2 & Hs & Hl2 & Hn2 & Hf2); [|exact Hnd'|].
    { rewrite Hl1. exact Hrl. }
    exists l2. cbn [substitute]. rewrite Hu.
    split; [exact Hs|]. split; [congruence|]. split.
    + intros e [<-|He].
      * rewrite Hf2, Hn1; [reflexivity|].
        intros e' He' Heq. apply Hnotin. rewrite <- Heq.
        apply in_map. exact He'.
      * rewrite (Hn2 e He), Hf1; [reflexivity|].
        intros Heq. apply Hnotin. rewrite <- Heq. apply in_map. exact He.
    + intros j Hj. rewrite Hf2, Hf1; [reflexivity | |].
      * intros Heq. apply (Hj el); [left; reflexivity | congruence].
      * intros e He. apply Hj. right. exact He.
Qed.

Lemma mapM_ok {A B : Type} (f : A -> result B) (l : list A) (l' : list B) :
  mapM f l = Ok l' -> Forall2 (fun a b => f a = Ok b) l l'.
Proof.
  revert l'. induction l as [|a l IH]; intros l'; cbn [mapM].
  - intros H. injection H as <-. constructor.
  - destruct (f a) as [b|e] eqn:Ea; [|discriminate]. cbn [bind].
    destruct (mapM f l) as [bs|e]; [|discriminate]. cbn [bind].
    intros H. injection H as <-. constructor; auto.
Qed.

Lemma mapM_raise {A B : Type} (f : A -> result B) (l : list A) (e : exn) :
  mapM f l = Raise e -> exists a, In a l /\ f a = Raise e.
Proof.
  induction l as [|a l IH]; cbn [mapM]; [discriminate|].
  destruct (f a) as [b|e'] eqn:Ea; cbn [bind].
  - destruct (mapM f l) as [bs|e'']; cbn [bind]; [discriminate|].
    intros H. injection H as ->. destruct IH as (x & Hx & Hf); [reflexivity|].
    exists x. split; [right; exact Hx | exact Hf].
  - intros H. injection H as ->. exists a. split; [left; reflexivity | exact Ea].
Qed.

Lemma extract_value_idx (p : S3DateParam) (d : datetime) (v : S3DateValue) :
  _extract_value p d = Ok v ->
  v_idx v = idx p /\ token v = _reconstruct_match_token p.
Proof.
  unfold _extract_value.
  destruct (if DateOp_eqb (sign p) NONE then Ok d else _) as [ts|e];
    [|discriminate].
  cbn [bind]. intros H. injection H as <-. split; reflexivity.
Qed.

Lemma extract_value_raises_overflow (p : S3DateParam) (d : datetime) (e : exn) :
  _extract_value p d = Raise e -> e = OverflowError.
Proof.
  unfold _extract_value, _compute_offset, timedelta_days, PyDatetime.sub,
    PyDatetime.add.
  destruct (DateOp_eqb (sign p) NONE); cbn [bind]; [discriminate|].
  destruct (Z.abs (value p) <=? MAX_DELTA_DAYS)%Z; cbn [bind];
    [|intros H; injection H as <-; reflexivity].
  destruct (DateOp_eqb (sign p) MINUS); cbn [days];
    match goal with
    | |- context [if ?c then _ else _] => destruct c
    end; cbn [bind];
    try (intros H; injection H as <-; reflexivity);
    match goal with
    | |- context [_ord2ymd ?n] => destruct (_ord2ymd n) as [[? ?] ?]
    end; discriminate.
Qed.

(** ** The matcher is sound for the declarative reading *)

Lemma star_sound (p : ascii -> bool) (caps c : captures) (s w r : string) :
  In (c, w, r) (star p caps s) ->
  c = caps /\ s = w ++ r /\ forall_chars p w = true.
Proof.
  revert w. induction s as [|x s IH]; intros w; cbn [star].
  - intros [H|[]]. injection H as <- <- <-. auto.
  - rewrite in_app_iff. intros [H|[H|[]]].
    + destruct (p x) eqn:E; [|contradiction].
      apply in_map_iff in H as ([[c' w'] r'] & Heq & Hin).
      injection Heq as <- <- <-.
      destruct (IH _ Hin) as (-> & -> & Hw).
      cbn [forall_chars]. rewrite E, Hw. auto.
    + injection H as <- <- <-. auto.
Qed.

(** Every outcome of the matcher splits the subject into a word of the
    pattern and the rest, and adds the groups of that word. *)
Lemma run_sound (r : regex) :
  forall (caps c : captures) (s w rest : string),
    In (c, w, rest) (run r caps s) ->
    exists new, c = (new ++ caps)%list /\ s = w ++ rest /\ matches r w new.
Proof.
  induction r as [t | p | r1 IH1 r2 IH2 | r IH | p | p | n r IH];
    intros caps c s w rest; cbn [run].
  - destruct (strip_prefix t s) as [s'|] eqn:E; [|intros []].
    intros [H|[]]. injection H as <- <- <-.
    apply strip_prefix_spec in E. exists []. split; [reflexivity|].
    split; [exact E | constructor].
  - destruct s as [|x s]; [intros []|].
    destruct (p x) eqn:E; [|intros []].
    intros [H|[]]. injection H as <- <- <-.
    exists []. split; [reflexivity|]. split; [reflexivity|].
    constructor. exact E.
  - rewrite in_flat_map. intros ([[c1 w1] s1] & H1 & H2).
    apply in_map_iff in H2 as ([[c2 w2] s2] & Heq & H2).
    injection Heq as <- <- <-.
    destruct (IH1 _ _ _ _ _ H1) as (n1 & -> & -> & M1).
    destruct (IH2 _ _ _ _ _ H2) as (n2 & -> & -> & M2).
    exists (n2 ++ n1)%list. split; [apply app_assoc|].
    split; [symmetry; apply append_assoc|]. constructor; assumption.
  - rewrite in_app_iff. intros [H|[H|[]]].
    + destruct (IH _ _ _ _ _ H) as (n1 & -> & -> & M).
      exists n1. repeat split. apply M_Opt_some. exact M.
    + injection H as <- <- <-. exists []. repeat split. constructor.
  - intros H. apply star_sound in H as (-> & -> & Hw).
    exists []. repeat split. constructor. exact Hw.
  - destruct s as [|x s]; [intros []|].
    destruct (p x) eqn:E; [|intros []].
    intros H. apply in_map_iff in H as ([[c' w'] r'] & Heq & Hin).
    injection Heq as <- <- <-.
    apply star_sound in Hin as (-> & -> & Hw).
    exists []. repeat split. constructor; [discriminate|].
    cbn [forall_chars]. rewrite E, Hw. reflexivity.
  - intros H. apply in_map_iff in H as ([[c' w'] r'] & Heq & Hin).
    injection Heq as <- <- <-.
    destruct (IH _ _ _ _ _ Hin) as (n1 & -> & -> & M).
    exists ((n, w') :: n1). repeat split. constructor. exact M.
Qed.

Lemma re_match_sound (r : regex) (s : string) (c : captures) (w rest : string) :
  re_match r s = Some (c, w, rest) -> s = w ++ rest /\ matches r w c.
Proof.
  unfold re_match. destruct (run r [] s) as [|o l] eqn:E; [discriminate|].
  intros H. injection H as ->.
  destruct (run_sound r [] c s w rest) as (new & -> & Hs & M).
  { rewrite E. left. reflexivity. }
  rewrite app_nil_r. auto.
Qed.

(** The groups of a word of [PARAM_PATTERN]. *)
Lemma PARAM_PATTERN_groups (w : string) (c : captures) :
  matches PARAM_PATTERN w c ->
  (group c 1 = Some "DATEID" \/ group c 1 = Some "DATETIMEID") /\
  ((group c 4 = None /\ group c 5 = None) \/
   (exists sg ds,
       group c 4 = Some (String sg "") /\ is_sign sg = true /\
       group c 5 = Some ds /\ ds <> "" /\ forall_chars isdigit ds = true)).
Proof.
  unfold PARAM_PATTERN. intros M.
  repeat match goal with
         | H : matches (Seq _ _) _ _ |- _ => inversion H; subst; clear H
         | H : matches (Group _ _) _ _ |- _ => inversion H; subst; clear H
         | H : matches (Lit _) _ _ |- _ => inversion H; subst; clear H
         | H : matches (Star _) _ _ |- _ => inversion H; subst; clear H
         | H : matches (Plus _) _ _ |- _ => inversion H; subst; clear H
         | H : matches (Cls _) _ _ |- _ => inversion H; subst; clear H
         | H : matches (Opt _) _ _ |- _ => inversion H; subst; clear H
         end; cbn; split; auto; right; eauto 10.
Qed.

(** ** What the constructor of [S3DatePath] builds *)

Local Open Scope Z_scope.

Lemma isdigit_value (c : ascii) : isdigit c = true -> 0 <= digit_value c <= 9.
Proof.
  unfold isdigit, digit_value. intros H.
  apply andb_true_iff in H as [H1 H2].
  apply Nat.leb_le in H1, H2. lia.
Qed.

Lemma int_of_digits_nonneg (s : string) (acc : Z) :
  0 <= acc -> forall_chars isdigit s = true -> 0 <= int_of_digits acc s.
Proof.
  revert acc. induction s as [|c s IH]; intros acc Hacc; cbn [int_of_digits forall_chars]; [auto|].
  intros H. apply andb_true_iff in H as [Hc Hs].
  apply IH; [|exact Hs]. pose proof (isdigit_value c Hc). lia.
Qed.

Lemma parse_param_ok (i : nat) (val : string) (x : S3DateParam) :
  _parse_param i val = Ok (Some x) ->
  idx x = i /\ 0 <= value x /\ (sign x = NONE -> value x = 0).
Proof.
  unfold _parse_param.
  destruct ((contains "{DATEID" val || contains "{DATETIMEID" val)
            && contains "}" val); [|discriminate].
  destruct (re_match PARAM_PATTERN val) as [[[caps w] rest]|] eqn:E;
    [|discriminate].
  apply re_match_sound in E as [_ M].
  apply PARAM_PATTERN_groups in M as [_ Hoff].
  destruct (group caps 1) as [name|]; [|discriminate].
  destruct (DateType_of_name name) as [dtype|]; [|discriminate].
  intros H. injection H as <-. cbn [idx value sign].
  split; [reflexivity|].
  destruct Hoff as [[-> ->] | (sg & ds & -> & Hsg & -> & Hne & Hds)].
  - split; [lia | reflexivity].
  - destruct (String.eqb_spec ds ""); [contradiction|]. split.
    + apply int_of_digits_nonneg; [lia | exact Hds].
    + unfold from_str, is_sign in *.
      destruct (Ascii.eqb_spec sg "-") as [->|]; [discriminate|].
      destruct (Ascii.eqb_spec sg "+") as [->|]; discriminate.
Qed.


Lemma parse_params_from_ok (path_lst : list string) (i : nat)
    (ps : list S3DateParam) :
  _parse_params_from i path_lst = Ok ps ->
  StronglySorted lt (map idx ps) /\
  Forall (fun p => (i <= idx p < i + List.length path_lst)%nat /\
                   0 <= value p /\ (sign p = NONE -> value p = 0)) ps.
Proof.
  revert i ps. induction path_lst as [|val l IH]; intros i ps; cbn.
  - intros H. injection H as <-. split; constructor.
  - destruct (_parse_param i val) as [o|e] eqn:Ep; [|discriminate]. cbn [bind].
    destruct (_parse_params_from (S i) l) as [params|e] eqn:El; [|discriminate].
    cbn [bind]. intros H. injection H as <-.
    destruct (IH _ _ El) as [Hs Hf].
    assert (Hf' : Forall (fun p => (i <= idx p < i + S (List.length l))%nat /\
                                   0 <= value p /\ (sign p = NONE -> value p = 0))
                    params).
    { eapply Forall_impl; [|exact Hf]. cbn. intros p (? & ? & ?).
      repeat split; auto; lia. }
    destruct o as [x|]; [|split; assumption].
    apply parse_param_ok in Ep as (Hi & Hv & Hn). split.
    + cbn [map]. constructor; [exact Hs|].
      rewrite Forall_map. eapply Forall_impl; [|exact Hf].
      cbn. intros p (? & _). lia.
    + constructor; [|exact Hf']. repeat split; auto; lia.
Qed.


Lemma split_fields (sep : ascii) (s : string) :
  Forall (fun f => forall_chars (fun c => negb (Ascii.eqb c sep)) f = true)
    (split sep s).
Proof.
  induction s as [|c s IH]; cbn [split].
  - repeat constructor.
  - destruct (Ascii.eqb c sep) eqn:E.
    + constructor; [reflexivity | exact IH].
    + destruct (split sep s) as [|f fs]; [repeat constructor; cbn; rewrite E; reflexivity|].
      inversion IH; subst. constructor; [|assumption].
      cbn. rewrite E. assumption.
Qed.

Local Close Scope Z_scope.

Lemma sorted_nodup (l : list nat) : StronglySorted lt l -> NoDup l.
Proof.
  induction 1 as [|a l Hs IH Hf]; constructor; [|exact IH].
  intros Hin. rewrite Forall_forall in Hf. specialize (Hf a Hin). lia.
Qed.

Lemma Forall2_extract (d : datetime) (ps : list S3DateParam)
    (rl : list S3DateValue) :
  Forall2 (fun p v => _extract_value p d = Ok v) ps rl ->
  map v_idx rl = map idx ps /\
  (forall p, In p ps -> exists v, In v rl /\ _extract_value p d = Ok v) /\
  (forall v, In v rl -> exists p, In p ps /\ _extract_value p d = Ok v).
Proof.
  induction 1 as [|p v ps rl Hpv HF (Hm & Hl & Hr)].
  - repeat split; [intros ? [] | intros ? []].
  - repeat split.
    + cbn [map]. rewrite Hm. f_equal. apply (extract_value_idx p d v Hpv).
    + intros q [<-|Hq]; [exists v; split; [left; reflexivity | exact Hpv]|].
      destruct (Hl q Hq) as (v' & Hin & He). exists v'. split; [right|]; auto.
    + intros u [<-|Hu]; [exists p; split; [left; reflexivity | exact Hpv]|].
      destruct (Hr u Hu) as (q & Hin & He). exists q. split; [right|]; auto.
Qed.

(** X14.  What the constructor of [S3DatePath] builds: the segments are
    not blank and have no slash; the parameters come in increasing order of
    position, each at a position of the list of segments, with an offset
    that is not negative and that is zero where there is no sign. *)
Theorem constructor_invariants (uri : string) (self : S3DatePath) :
  S3DatePath_init uri = Ok self ->
  Forall (fun seg => nonblank seg = true /\ forall_chars not_slash seg = true)
    (_path_lst self) /\
  StronglySorted lt (map idx (_params self)) /\
  Forall (fun p => idx p < List.length (_path_lst self) /\
                   (0 <= value p)%Z /\ (sign p = NONE -> value p = 0%Z))
    (_params self).
Proof.
  intros H. apply S3DatePath_init_inv in H as (_ & Hlst & Hps).
  split.
  - rewrite Hlst. apply Forall_forall. intros seg Hin.
    apply filter_In in Hin as [Hin Hnb]. split; [exact Hnb|].
    pose proof (split_fields slash (path (s3path self))) as Hf.
    rewrite Forall_forall in Hf. exact (Hf seg Hin).
  - apply parse_params_from_ok in Hps as [Hs Hf]. split; [exact Hs|].
    eapply Forall_impl; [|exact Hf]. cbn beta.
    intros p ((_ & Hi) & Hv & Hn). repeat split; auto.
Qed.

Lemma constructor_invariants_witness :
  exists self,
    S3DatePath_init "s3://test-bucket/path/p2/some_{DATETIMEID-1}_postfix"
    = Ok self /\
    Forall (fun seg => nonblank seg = true /\ forall_chars not_slash seg = true)
      (_path_lst self) /\
    StronglySorted lt (map idx (_params self)) /\
    Forall (fun p => idx p < List.length (_path_lst self) /\
                     (0 <= value p)%Z /\ (sign p = NONE -> value p = 0%Z))
      (_params self).
Proof.
  eexists. split; [reflexivity|].
  apply (constructor_invariants
           "s3://test-bucket/path/p2/some_{DATETIMEID-1}_postfix").
  reflexivity.
Defined.



(** X16.  On a constructed object [resolve_dateid] either raises
    [OverflowError] and leaves the object as it is, or returns the URL of
    as many segments as before, in which the segment of every parameter is
    the old one with the token replaced by the value and every other segment
    is unchanged; it never raises [IndexError]. *)
Theorem resolve_on_constructed (uri : string) (self : S3DatePath) (d : datetime) :
  S3DatePath_init uri = Ok self ->
  resolve_dateid self d = (self, Raise OverflowError) \/
  exists lst',
    resolve_dateid self d
    = (mkS3DatePath (s3path self) lst' (_params self),
       Ok ("s3://" ++ bucket (s3path self) ++ "/" ++ join "/" lst')) /\
    List.length lst' = List.length (_path_lst self) /\
    (forall p, In p (_params self) ->
               exists v,
                 _extract_value p d = Ok v /\
                 nth_error lst' (idx p)
                 = option_map (replace (_reconstruct_match_token p) (v_value v))
                     (nth_error (_path_lst self) (idx p))) /\
    (forall j, (forall p, In p (_params self) -> idx p <> j) ->
               nth_error lst' j = nth_error (_path_lst self) j).
Proof.
  intros Hinit.
  destruct (S3DatePath_init_inv uri self Hinit) as (Hp & _ & Hps).
  apply S3Path_init_proto in Hp.
  apply parse_params_from_ok in Hps as [Hsorted Hin].
  unfold resolve_dateid.
  destruct (mapM (fun param => _extract_value param d) (_params self))
    as [rl|e] eqn:Em.
  - right. apply mapM_ok in Em.
    destruct (Forall2_extract d _ _ Em) as (Hmap & Hl & Hr).
    destruct (substitute_spec rl (_path_lst self)) as (lst' & Hs & Hlen & Hn & Hf).
    + apply Forall_forall. intros v Hv.
      destruct (Hr v Hv) as (p & Hpin & He).
      rewrite (proj1 (extract_value_idx p d v He)).
      rewrite Forall_forall in Hin. apply (Hin p Hpin).
    + rewrite Hmap. apply sorted_nodup. exact Hsorted.
    + exists lst'. rewrite Hs, Hp. split; [reflexivity|]. split; [exact Hlen|].
      split.
      * intros p Hpin. destruct (Hl p Hpin) as (v & Hv & He).
        exists v. split; [exact He|].
        destruct (extract_value_idx p d v He) as [Hi Ht].
        rewrite <- Hi, <- Ht. apply Hn. exact Hv.
      * intros j Hj. apply Hf. intros v Hv.
        destruct (Hr v Hv) as (p & Hpin & He).
        rewrite (proj1 (extract_value_idx p d v He)). apply Hj. exact Hpin.
  - left. apply mapM_raise in Em as (p & _ & He).
    apply extract_value_raises_overflow in He. subst e. reflexivity.
Qed.

Lemma resolve_on_constructed_witness :
  exists self,
    S3DatePath_init "s3://test-bucket/path/p2/some_{DATETIMEID-1}" = Ok self /\
    (resolve_dateid self test_timestamp = (self, Raise OverflowError) \/
     exists lst',
       resolve_dateid self test_timestamp
       = (mkS3DatePath (s3path self) lst' (_params self),
          Ok ("s3://" ++ bucket (s3path self) ++ "/" ++ join "/" lst')) /\
       List.length lst' = List.length (_path_lst self) /\
       (forall p, In p (_params self) ->
                  exists v,
                    _extract_value p test_timestamp = Ok v /\
                    nth_error lst' (idx p)
                    = option_map
                        (replace (_reconstruct_match_token p) (v_value v))
                        (nth_error (_path_lst self) (idx p))) /\
       (forall j, (forall p, In p (_params self) -> idx p <> j) ->
                  nth_error lst' j = nth_error (_path_lst self) j)).
Proof.
  eexists. split; [reflexivity|].
  apply (resolve_on_constructed "s3://test-bucket/path/p2/some_{DATETIMEID-1}").
  reflexivity.
Defined.

(** ** Paths without a placeholder *)

Lemma contains_absent_char (a : ascii) (t s : string) :
  forall_chars (fun c => negb (Ascii.eqb c a)) s = true ->
  contains (String a t) s = false.
Proof.
  induction s as [|c s IH]; [reflexivity|].
  cbn [forall_chars contains]. intros H. apply andb_true_iff in H as [Hc Hs].
  rewrite (IH Hs), orb_false_r. unfold startswith. cbn [strip_prefix].
  rewrite Ascii.eqb_sym. apply negb_true_iff in Hc. rewrite Hc. reflexivity.
Qed.

Lemma split_forall_chars (q : ascii -> bool) (sep : ascii) (s : string) :
  forall_chars q s = true ->
  Forall (fun f => forall_chars q f = true) (split sep s).
Proof.
  induction s as [|c s IH]; cbn [split forall_chars].
  - repeat constructor.
  - intros H. apply andb_true_iff in H as [Hc Hs]. specialize (IH Hs).
    destruct (Ascii.eqb c sep).
    + constructor; [reflexivity | exact IH].
    + destruct (split sep s) as [|f fs];
        [repeat constructor; cbn; rewrite Hc; reflexivity|].
      inversion IH; subst. constructor; [|assumption].
      cbn. rewrite Hc. assumption.
Qed.

Lemma parse_params_from_brace_free (path_lst : list string) (i : nat) :
  Forall (fun f => forall_chars not_lbrace f = true) path_lst ->
  _parse_params_from i path_lst = Ok [].
Proof.
  revert i. induction path_lst as [|val l IH]; intros i H; [reflexivity|].
  inversion H as [|? ? Hval Hl]; subst. cbn [_parse_params_from].
  unfold _parse_param.
  rewrite !(contains_absent_char "{" _ val Hval). cbn [orb andb bind].
  rewrite (IH _ Hl). reflexivity.
Qed.

(** X17.  A path without an opening brace has no parameter: construction
    succeeds and [resolve_dateid] returns the non-blank segments joined,
    whatever the timestamp. *)
Theorem brace_free_path_has_no_placeholder
    (uri : string) (p : S3Path) (d : datetime) :
  S3Path_init uri = Ok p ->
  forall_chars not_lbrace (path p) = true ->
  let self :=
    mkS3DatePath p (filter nonblank (split slash (path p))) [] in
  S3DatePath_init uri = Ok self /\
  resolve_dateid self d
  = (self, Ok ("s3://" ++ bucket p ++ "/" ++ join "/" (_path_lst self))).
Proof.
  intros Hp Hb self. split.
  - unfold S3DatePath_init. rewrite Hp. cbn [bind].
    unfold _parse_params. fold (nonblank).
    rewrite parse_params_from_brace_free; [reflexivity|].
    apply Forall_forall. intros f Hf. apply filter_In in Hf as [Hf _].
    pose proof (split_forall_chars not_lbrace slash (path p) Hb) as HF.
    rewrite Forall_forall in HF. exact (HF f Hf).
  - unfold resolve_dateid, self. cbn [_params _path_lst s3path mapM substitute].
    rewrite (S3Path_init_proto uri p Hp). reflexivity.
Qed.

Lemma brace_free_path_has_no_placeholder_witness :
  S3DatePath_init "s3://test-bucket//path//////p2"
  = Ok (mkS3DatePath (mkS3Path "s3" "test-bucket" "/path/p2") ["path"; "p2"] []) /\
  resolve_dateid
    (mkS3DatePath (mkS3Path "s3" "test-bucket" "/path/p2") ["path"; "p2"] [])
    test_timestamp
  = (mkS3DatePath (mkS3Path "s3" "test-bucket" "/path/p2") ["path"; "p2"] [],
     Ok "s3://test-bucket/path/p2").
Proof.
  apply (brace_free_path_has_no_placeholder "s3://test-bucket//path//////p2"
           (mkS3Path "s3" "test-bucket" "/path/p2") test_timestamp);
    reflexivity.
Defined.

(** ** The match of [PARAM_PATTERN] on a placeholder *)

Lemma token_none (k : DateType) (post : string) (caps : captures) :
  exists tl,
    run TOKEN_RE caps ("{" ++ DateType_name k ++ "}" ++ post)
    = (match k with
       | DATEID => (1, "DATEID") :: caps
       | DATETIMEID => (1, "DATETIMEID") :: (2, "TIME") :: caps
       end,
       "{" ++ DateType_name k ++ "}" ++ takewhile dot post,
       dropwhile dot post) :: tl.
Proof.
  destruct k; cbn.
  - destruct (star_head dot ((1, "DATEID") :: caps) post) as [tl ->]. cbn.
    eexists. reflexivity.
  - destruct (star_head dot ((1, "DATETIMEID") :: (2, "TIME") :: caps) post)
      as [tl ->]. cbn.
    eexists. reflexivity.
Qed.

Lemma takewhile_digits (ds post : string) :
  forall_chars isdigit ds = true ->
  takewhile isdigit (ds ++ String "}" post) = ds /\
  dropwhile isdigit (ds ++ String "}" post) = String "}" post.
Proof.
  intros H. rewrite takewhile_app, dropwhile_app by exact H.
  cbn. rewrite append_nil_r. auto.
Qed.

Lemma token_some (k : DateType) (sg : ascii) (ds post : string)
    (caps : captures) :
  is_sign sg = true -> ds <> "" -> forall_chars isdigit ds = true ->
  exists tl,
    run TOKEN_RE caps ("{" ++ DateType_name k ++ String sg ds ++ "}" ++ post)
    = ((3, String sg ds) :: (5, ds) :: (4, String sg "")
       :: match k with
          | DATEID => (1, "DATEID") :: caps
          | DATETIMEID => (1, "DATETIMEID") :: (2, "TIME") :: caps
          end,
       "{" ++ DateType_name k ++ String sg ds ++ "}" ++ takewhile dot post,
       dropwhile dot post) :: tl.
Proof.
  intros Hsg Hne Hds. destruct ds as [|c ds]; [contradiction|].
  cbn [forall_chars] in Hds. apply andb_true_iff in Hds as [Hc Hds].
  destruct (takewhile_digits ds post Hds) as [Ht Hd].
  destruct k; cbn -[isdigit is_sign]; rewrite Hsg; cbn -[isdigit is_sign]; rewrite Hc; cbn -[isdigit is_sign].
  - destruct (star_head isdigit ((4, String sg "") :: (1, "DATEID") :: caps)
                (ds ++ String "}" post)) as [tl ->].
    rewrite Ht, Hd. cbn -[isdigit is_sign].
    destruct (star_head dot
                ((3, String sg (String c ds)) :: (5, String c ds)
                 :: (4, String sg "") :: (1, "DATEID") :: caps) post)
      as [tl' ->].
    cbn. rewrite ?append_nil_r. eexists. reflexivity.
  - destruct (star_head isdigit
                ((4, String sg "") :: (1, "DATETIMEID") :: (2, "TIME") :: caps)
                (ds ++ String "}" post)) as [tl ->].
    rewrite Ht, Hd. cbn -[isdigit is_sign].
    destruct (star_head dot
                ((3, String sg (String c ds)) :: (5, String c ds)
                 :: (4, String sg "") :: (1, "DATETIMEID") :: (2, "TIME")
                 :: caps) post)
      as [tl' ->].
    cbn. rewrite ?append_nil_r. eexists. reflexivity.
Qed.

Lemma star_app (p : ascii -> bool) (caps : captures) (a t : string) :
  forall_chars p a = true ->
  exists tl,
    star p caps (a ++ t)
    = (map (fun '(c, w, r) => (c, (a ++ w)%string, r)) (star p caps t)
       ++ tl)%list.
Proof.
  induction a as [|x a IH]; cbn [forall_chars append].
  - intros _. exists []. rewrite app_nil_r. symmetry.
    erewrite map_ext; [apply map_id|]. intros [[c w] r]. reflexivity.
  - intros H. apply andb_true_iff in H as [Hx Ha].
    destruct (IH Ha) as [tl Htl]. cbn [star]. rewrite Hx, Htl.
    rewrite map_app, map_map. eexists. rewrite <- app_assoc. f_equal.
    apply map_ext. intros [[c w] r]. reflexivity.
Qed.

Lemma flat_map_nil {A B : Type} (f : A -> list B) (l : list A) :
  (forall x, In x l -> f x = []) -> flat_map f l = [].
Proof.
  induction l as [|x l IH]; intros H; [reflexivity|].
  cbn. rewrite (H x) by (left; reflexivity).
  apply IH. intros y Hy. apply H. right. exact Hy.
Qed.

Lemma forall_chars_app (q : ascii -> bool) (a b : string) :
  forall_chars q (a ++ b) = forall_chars q a && forall_chars q b.
Proof.
  induction a as [|c a IH]; [reflexivity|].
  cbn. rewrite IH, andb_assoc. reflexivity.
Qed.

Lemma token_needs_brace (caps : captures) (r : string) :
  forall_chars not_lbrace r = true -> run TOKEN_RE caps r = [].
Proof.
  intros H. unfold TOKEN_RE. unfold_seq.
  destruct r as [|c r]; [reflexivity|].
  cbn [forall_chars] in H. apply andb_true_iff in H as [Hc _].
  unfold not_lbrace in Hc. apply negb_true_iff in Hc.
  cbn [run strip_prefix]. rewrite Ascii.eqb_sym, Hc. reflexivity.
Qed.

Lemma PARAM_PATTERN_eq : PARAM_PATTERN = Seq (Star dot) TOKEN_RE.
Proof. reflexivity. Qed.

(** The match of [PARAM_PATTERN] on a segment whose last opening brace
    starts a token: the leading run stops before that brace. *)
Lemma re_match_param (pre t' : string) (c : captures) (w r : string)
    (tl : list outcome) :
  forall_chars dot pre = true ->
  forall_chars not_lbrace t' = true ->
  run TOKEN_RE [] (String "{" t') = (c, w, r) :: tl ->
  re_match PARAM_PATTERN (pre ++ String "{" t') = Some (c, pre ++ w, r).
Proof.
  intros Hpre Ht Htok. rewrite PARAM_PATTERN_eq. unfold re_match.
  unfold_seq. change (run (Star dot) [] ?s) with (star dot [] s).
  destruct (star_app dot [] pre (String "{" t') Hpre) as [tl1 ->].
  cbn [star]. replace (dot "{") with true by reflexivity.
  rewrite !map_app, !flat_map_app. cbn [map flat_map].
  rewrite Htok. cbn [map app].
  rewrite flat_map_nil.
  - cbn [app]. rewrite append_nil_r. reflexivity.
  - intros [[c1 w1] r1] Hin.
    apply in_map_iff in Hin as ([[c2 w2] r2] & Heq & Hin).
    injection Heq as <- <- <-.
    apply in_map_iff in Hin as ([[c3 w3] r3] & Heq & Hin).
    injection Heq as <- <- <-.
    apply star_sound in Hin as (_ & Hs & _).
    rewrite Hs, forall_chars_app in Ht. apply andb_true_iff in Ht as [_ Hr].
    rewrite (token_needs_brace c3 r3 Hr). reflexivity.
Qed.

(** ** Decimal text of an offset *)

Local Open Scope Z_scope.

Lemma int_of_digits_uint_acc (d : Decimal.uint) (acc : positive) :
  int_of_digits (Z.pos acc) (NilEmpty.string_of_uint d)
  = Z.pos (Pos.of_uint_acc d acc).
Proof.
  revert acc. induction d as [|d IH|d IH|d IH|d IH|d IH|d IH|d IH|d IH|d IH|d IH];
    intros acc; [reflexivity|..];
    cbn [NilEmpty.string_of_uint int_of_digits Pos.of_uint_acc];
    rewrite <- IH; f_equal;
    match goal with
    | |- context [digit_value ?c] =>
        let v := eval vm_compute in (digit_value c) in
        change (digit_value c) with v
    end; lia.
Qed.

Lemma int_of_digits_uint (d : Decimal.uint) :
  int_of_digits 0 (NilEmpty.string_of_uint d) = Z.of_N (Pos.of_uint d).
Proof.
  induction d as [|d IH|d IH|d IH|d IH|d IH|d IH|d IH|d IH|d IH|d IH];
    [reflexivity | exact IH |..];
    cbn [NilEmpty.string_of_uint int_of_digits Pos.of_uint Z.of_N];
    rewrite <- int_of_digits_uint_acc; reflexivity.
Qed.

Lemma string_of_uint_digits (d : Decimal.uint) :
  forall_chars isdigit (NilEmpty.string_of_uint d) = true.
Proof.
  induction d as [|d IH|d IH|d IH|d IH|d IH|d IH|d IH|d IH|d IH|d IH];
    [reflexivity|..]; cbn [NilEmpty.string_of_uint forall_chars];
    rewrite IH; reflexivity.
Qed.

Lemma str_of_int_pos (p : positive) :
  str_of_int (Z.pos p) = NilEmpty.string_of_uint (Pos.to_uint p).
Proof.
  unfold str_of_int. cbn [Z.to_int NilZero.string_of_int].
  pose proof (DecimalPos.Unsigned.to_uint_nonnil p) as H.
  unfold NilZero.string_of_uint. destruct (Pos.to_uint p); congruence.
Qed.

(** [int(str(n)) == n], and [str(n)] is a non-empty run of digits. *)
Lemma int_of_str_of_int (n : Z) :
  0 <= n ->
  int_of_str (str_of_int n) = n /\
  str_of_int n <> ""%string /\
  forall_chars isdigit (str_of_int n) = true.
Proof.
  intros Hn. destruct n as [|p|p]; [repeat split; discriminate| |lia].
  rewrite str_of_int_pos. unfold int_of_str.
  rewrite int_of_digits_uint, DecimalPos.Unsigned.of_to.
  split; [reflexivity|]. split; [|apply string_of_uint_digits].
  pose proof (DecimalPos.Unsigned.to_uint_nonnil p) as H.
  destruct (Pos.to_uint p); [congruence|..]; discriminate.
Qed.

Local Close Scope Z_scope.

(** ** Placeholders and their text *)

Lemma contains_unfold (t s : string) :
  contains t s
  = startswith s t
    || match s with EmptyString => false | String _ s' => contains t s' end.
Proof. destruct s; reflexivity. Qed.

Lemma contains_app (t a b : string) : contains t (a ++ t ++ b) = true.
Proof.
  induction a as [|c a IH].
  - rewrite contains_unfold.
    replace (startswith ("" ++ t ++ b) t) with true
      by (symmetry; apply startswith_spec; exists b; reflexivity).
    reflexivity.
  - cbn [append contains]. rewrite IH. apply orb_true_r.
Qed.

Lemma digits_brace_free (ds : string) :
  forall_chars isdigit ds = true -> forall_chars not_lbrace ds = true.
Proof.
  induction ds as [|c ds IH]; [reflexivity|]. cbn [forall_chars].
  intros H. apply andb_true_iff in H as [Hc Hds]. rewrite (IH Hds), andb_true_r.
  unfold not_lbrace. destruct (Ascii.eqb_spec c "{") as [->|]; [|reflexivity].
  discriminate.
Qed.

Lemma sign_brace_free (sg : ascii) : is_sign sg = true -> not_lbrace sg = true.
Proof.
  unfold not_lbrace. destruct (Ascii.eqb_spec sg "{") as [->|]; [|reflexivity].
  discriminate.
Qed.

Lemma placeholder_text_app (k : DateType) (off : option (ascii * string))
    (post : string) :
  placeholder_text k off ++ post
  = String "{" (DateType_name k
                ++ match off with None => "" | Some (sg, ds) => String sg ds end
                ++ "}" ++ post).
Proof.
  unfold placeholder_text. rewrite !append_assoc. reflexivity.
Qed.

Lemma placeholder_tail_brace_free (k : DateType)
    (off : option (ascii * string)) (post : string) :
  well_formed_offset off ->
  forall_chars not_lbrace post = true ->
  forall_chars not_lbrace
    (DateType_name k
     ++ match off with None => "" | Some (sg, ds) => String sg ds end
     ++ "}" ++ post) = true.
Proof.
  intros Hoff Hpost. rewrite !forall_chars_app, Hpost.
  replace (forall_chars not_lbrace (DateType_name k)) with true
    by (destruct k; reflexivity).
  destruct off as [[sg ds]|]; [|reflexivity].
  destruct Hoff as (Hsg & _ & Hds). cbn [forall_chars].
  rewrite (sign_brace_free sg Hsg), (digits_brace_free ds Hds). reflexivity.
Qed.

Lemma placeholder_heuristics (k : DateType) (off : option (ascii * string))
    (pre post : string) :
  (contains "{DATEID" (pre ++ placeholder_text k off ++ post)
   || contains "{DATETIMEID" (pre ++ placeholder_text k off ++ post))
  && contains "}" (pre ++ placeholder_text k off ++ post) = true.
Proof.
  apply andb_true_iff. split.
  - unfold placeholder_text. destruct k; cbn [DateType_name].
    + change ("{" ++ "DATEID" ++ ?x) with ("{DATEID" ++ x).
      rewrite append_assoc, contains_app. reflexivity.
    + change ("{" ++ "DATETIMEID" ++ ?x) with ("{DATETIMEID" ++ x).
      rewrite append_assoc, contains_app. apply orb_true_r.
  - unfold placeholder_text.
    replace (pre ++ ("{" ++ DateType_name k
                     ++ match off with
                        | None => ""
                        | Some (sg, ds) => String sg ds
                        end ++ "}") ++ post)
      with ((pre ++ "{" ++ DateType_name k
             ++ match off with
                | None => ""
                | Some (sg, ds) => String sg ds
                end) ++ "}" ++ post)
      by (rewrite !append_assoc; reflexivity).
    apply contains_app.
Qed.

Lemma re_match_placeholder (k : DateType) (off : option (ascii * string))
    (pre post : string) :
  forall_chars dot pre = true ->
  forall_chars not_lbrace post = true ->
  well_formed_offset off ->
  exists w r,
    re_match PARAM_PATTERN (pre ++ placeholder_text k off ++ post)
    = Some ((match off with
             | None => []
             | Some (sg, ds) =>
                 [(3, String sg ds); (5, ds); (4, String sg "")]
             end
             ++ match k with
                | DATEID => [(1, "DATEID")]
                | DATETIMEID => [(1, "DATETIMEID"); (2, "TIME")]
                end)%list, w, r).
Proof.
  intros Hpre Hpost Hoff. rewrite placeholder_text_app.
  pose proof (placeholder_tail_brace_free k off post Hoff Hpost) as Hbf.
  destruct off as [[sg ds]|].
  - destruct Hoff as (Hsg & Hne & Hds).
    destruct (token_some k sg ds post [] Hsg Hne Hds) as [tl Htok].
    rewrite (re_match_param _ _ _ _ _ _ Hpre Hbf Htok).
    do 2 eexists. destruct k; reflexivity.
  - destruct (token_none k post []) as [tl Htok].
    rewrite (re_match_param _ _ _ _ _ _ Hpre Hbf Htok).
    do 2 eexists. destruct k; reflexivity.
Qed.

Lemma parse_param_placeholder (i : nat) (k : DateType)
    (off : option (ascii * string)) (pre post : string) :
  forall_chars dot pre = true ->
  forall_chars not_lbrace post = true ->
  well_formed_offset off ->
  _parse_param i (pre ++ placeholder_text k off ++ post)
  = Ok (Some (placeholder_of i k off)).
Proof.
  intros Hpre Hpost Hoff. unfold _parse_param.
  rewrite placeholder_heuristics.
  destruct (re_match_placeholder k off pre post Hpre Hpost Hoff)
    as (w & r & ->).
  destruct off as [[sg ds]|].
  - destruct Hoff as (_ & Hne & _). apply String.eqb_neq in Hne.
    destruct k; cbn; rewrite Hne; reflexivity.
  - destruct k; reflexivity.
Qed.



Lemma reconstruct_placeholder_text (i : nat) (k : DateType) (sg : DateOp)
    (n : Z) :
  _reconstruct_match_token (mkS3DateParam i k sg n)
  = placeholder_text k (offset_of sg n).
Proof.
  unfold _reconstruct_match_token, placeholder_text.
  destruct sg; cbn -[str_of_int append];
    rewrite ?append_nil_r, ?append_assoc; cbn -[str_of_int]; reflexivity.
Qed.



(** ** Resolution of well-formed placeholders *)

Lemma S3Path_init_path_dot (uri : string) (p : S3Path) :
  S3Path_init uri = Ok p -> forall_chars dot (path p) = true.
Proof.
  rewrite S3Path_init_spec.
  destruct (strip_scheme uri) as [[sch r]|]; [|discriminate].
  destruct (takewhile not_slash r) as [|a b]; [discriminate|].
  intros H. injection H as <-. cbn [path].
  rewrite normalize_path_collapse. apply collapse_forall_chars.
  apply takewhile_forall.
Qed.

Lemma replace_from_prefix (a : ascii) (o new pre s : string) :
  forall_chars (fun c => negb (Ascii.eqb c a)) pre = true ->
  replace_from (String a o) new 0 (pre ++ s)
  = pre ++ replace_from (String a o) new 0 s.
Proof.
  induction pre as [|c pre IH]; [reflexivity|].
  cbn [forall_chars]. intros H. apply andb_true_iff in H as [Hc Hpre].
  apply negb_true_iff in Hc. cbn [append replace_from].
  unfold startswith at 1. cbn [strip_prefix].
  rewrite Ascii.eqb_sym, Hc, (IH Hpre). reflexivity.
Qed.

Lemma reconstruct_head (p : S3DateParam) :
  exists o, _reconstruct_match_token p = String "{" o.
Proof. unfold _reconstruct_match_token. eexists. reflexivity. Qed.

Lemma reconstruct_idx (i j : nat) (k : DateType) (sg : DateOp) (n : Z) :
  _reconstruct_match_token (mkS3DateParam i k sg n)
  = _reconstruct_match_token (mkS3DateParam j k sg n).
Proof. reflexivity. Qed.

Lemma replace_token (p : S3DateParam) (val pre post : string) :
  forall_chars not_lbrace pre = true ->
  forall_chars not_lbrace post = true ->
  replace (_reconstruct_match_token p) val
    (pre ++ _reconstruct_match_token p ++ post)
  = pre ++ val ++ post.
Proof.
  intros Hpre Hpost. destruct (reconstruct_head p) as [o ->].
  unfold replace. rewrite (replace_from_prefix "{" o val pre _ Hpre).
  rewrite replace_from_match by discriminate.
  rewrite replace_from_absent; [reflexivity|].
  apply contains_absent_char. exact Hpost.
Qed.

Lemma parse_param_plain (i : nat) (s : string) :
  forall_chars not_lbrace s = true -> _parse_param i s = Ok None.
Proof.
  intros H. unfold _parse_param.
  rewrite !(contains_absent_char "{" _ s H). reflexivity.
Qed.

Lemma parse_params_from_segments (segs : list segment) (i : nat) :
  Forall segment_ok segs ->
  Forall (fun seg => forall_chars dot (segment_text seg) = true) segs ->
  _parse_params_from i (map segment_text segs) = Ok (params_of i segs).
Proof.
  revert i. induction segs as [|seg segs IH]; intros i Hok Hdot;
    [reflexivity|].
  inversion Hok as [|? ? Hseg Hrest]; subst.
  inversion Hdot as [|? ? Hd Hdrest]; subst.
  cbn [map _parse_params_from]. rewrite (IH (S i) Hrest Hdrest).
  destruct seg as [s|pre k sg n post]; cbn [segment_text segment_ok] in *.
  - rewrite (parse_param_plain i s Hseg). reflexivity.
  - destruct Hseg as (Hn & Hz & Hpre & Hpost).
    rewrite forall_chars_app in Hd. apply andb_true_iff in Hd as [Hd _].
    rewrite (reconstruct_idx 0 i), reconstruct_placeholder_text.
    destruct (int_of_str_of_int n Hn) as (Hint & Hne & Hds).
    rewrite parse_param_placeholder; [| exact Hd | exact Hpost |].
    + cbn [bind params_of]. do 3 f_equal.
      unfold placeholder_of. destruct sg; cbn [offset_of]; rewrite ?Hint;
        try reflexivity.
      rewrite (Hz eq_refl). reflexivity.
    + destruct sg; cbn [offset_of well_formed_offset]; auto.
Qed.

Lemma extract_value_at (i : nat) (k : DateType) (sg : DateOp) (n : Z)
    (d : datetime) :
  _extract_value (mkS3DateParam i k sg n) d
  = (v <- _extract_value (mkS3DateParam 0 k sg n) d ;;
     Ok (mkS3DateValue i (token v) (v_value v))).
Proof.
  unfold _extract_value. cbn [sign value dt idx].
  destruct (if DateOp_eqb sg NONE then Ok d else _compute_offset d sg n);
    reflexivity.
Qed.

Lemma update_at_app (f : string -> string) (l1 : list string) (x : string)
    (l2 : list string) :
  update_at (List.length l1) f (l1 ++ x :: l2)%list
  = Some (l1 ++ f x :: l2)%list.
Proof.
  induction l1 as [|y l1 IH]; [reflexivity|].
  cbn [List.length app update_at]. rewrite IH. reflexivity.
Qed.

Lemma resolve_segments (d : datetime) (segs : list segment) :
  Forall segment_ok segs ->
  forall (l1 : list string) (vals : list string),
    mapM (segment_value d) segs = Ok vals ->
    exists resolved_lst,
      mapM (fun param => _extract_value param d)
           (params_of (List.length l1) segs) = Ok resolved_lst /\
      substitute resolved_lst (l1 ++ map segment_text segs)%list
      = ((l1 ++ vals)%list, None).
Proof.
  induction segs as [|seg segs IH]; intros Hok l1 vals Hvals.
  - injection Hvals as <-. exists []. split; reflexivity.
  - inversion Hok as [|? ? Hseg Hrest]; subst.
    cbn [mapM] in Hvals.
    destruct (segment_value d seg) as [x|e] eqn:Ex; [|discriminate].
    destruct (mapM (segment_value d) segs) as [xs|e] eqn:Exs; [|discriminate].
    cbn [bind] in Hvals. injection Hvals as <-.
    destruct (IH Hrest (l1 ++ [x])%list xs eq_refl) as (rl & Hrl & Hsub).
    rewrite length_app in Hrl. cbn [List.length] in Hrl.
    rewrite Nat.add_1_r in Hrl. rewrite <- app_assoc in Hsub.
    cbn [app] in Hsub.
    destruct seg as [s|pre k sg n post]; cbn [segment_value] in Ex.
    + injection Ex as <-. exists rl. cbn [params_of map segment_text].
      split; [exact Hrl|]. rewrite Hsub, <- app_assoc. reflexivity.
    + destruct (_extract_value (mkS3DateParam 0 k sg n) d) as [v|e] eqn:Ev;
        [|discriminate].
      cbn [bind] in Ex. injection Ex as <-.
      destruct (extract_value_idx _ _ _ Ev) as [_ Htok].
      exists (mkS3DateValue (List.length l1) (token v) (v_value v) :: rl).
      cbn [params_of mapM]. rewrite extract_value_at, Ev. cbn [bind].
      rewrite Hrl. cbn [bind]. split; [reflexivity|].
      cbn [map segment_text substitute v_idx token v_value].
      rewrite update_at_app, Htok.
      destruct Hseg as (_ & _ & Hpre & Hpost).
      rewrite (replace_token _ (v_value v) pre post Hpre Hpost).
      rewrite Hsub, <- app_assoc. reflexivity.
Qed.



(** ** Offsets *)

Local Open Scope Z_scope.

Lemma compute_offset_shift (d : datetime) (op : DateOp) (n : Z) :
  valid d -> 0 <= n ->
  (n <= MAX_DELTA_DAYS /\ 1 <= toordinal d + shift op n <= MAXORDINAL ->
   exists ts,
     _compute_offset d op n = Ok ts /\ valid ts /\
     toordinal ts = toordinal d + shift op n /\
     hour ts = hour d /\ minute ts = minute d /\ second ts = second d /\
     microsecond ts = microsecond d) /\
  (~ (n <= MAX_DELTA_DAYS /\ 1 <= toordinal d + shift op n <= MAXORDINAL) ->
   _compute_offset d op n = Raise OverflowError).
Proof.
  intros Hd Hn. unfold _compute_offset, shift. split.
  - intros [Hmax Hr]. rewrite timedelta_days_ok by lia. cbn [bind].
    destruct (DateOp_eqb op MINUS); [unfold PyDatetime.sub; cbn [days]|];
      apply add_in_range; assumption.
  - intros Hout.
    destruct (Z.le_gt_cases n MAX_DELTA_DAYS) as [Hle | Hgt].
    + rewrite timedelta_days_ok by lia. cbn [bind].
      destruct (DateOp_eqb op MINUS); [unfold PyDatetime.sub; cbn [days]|];
        apply add_out_of_range; intros Hr; apply Hout; auto.
    + rewrite timedelta_days_overflow by lia. reflexivity.
Qed.

Lemma toordinal_range (d : datetime) :
  valid d -> 1 <= toordinal d <= MAXORDINAL.
Proof.
  intros (Hy & Hm & Hdd & _). apply (_ymd2ord_range _ _ _ Hy Hm Hdd).
Qed.

Lemma datetime_eq (a b : datetime) :
  valid a -> valid b -> toordinal a = toordinal b ->
  hour a = hour b -> minute a = minute b -> second a = second b ->
  microsecond a = microsecond b -> a = b.
Proof.
  intros Ha Hb Ho Hh Hmi Hs Hus.
  destruct (toordinal_injective a b Ha Hb Ho) as (Hy & Hm & Hdd).
  destruct a, b. cbn in *. congruence.
Qed.

(** X22.  Shifting a timestamp of the calendar by a number of days and
    back by the same number gives the timestamp again. *)
Theorem compute_offset_inverse (d ts : datetime) (op : DateOp) (n : Z) :
  valid d -> 0 <= n -> op <> NONE ->
  _compute_offset d op n = Ok ts ->
  _compute_offset ts (opposite op) n = Ok d.
Proof.
  intros Hd Hn Hop H.
  destruct (compute_offset_shift d op n Hd Hn) as [Hin Hout].
  assert (Hr : n <= MAX_DELTA_DAYS /\
               1 <= toordinal d + shift op n <= MAXORDINAL).
  { destruct (Z.le_gt_cases n MAX_DELTA_DAYS) as [Hle | Hgt];
      [destruct (Z.le_gt_cases 1 (toordinal d + shift op n));
       [destruct (Z.le_gt_cases (toordinal d + shift op n) MAXORDINAL)|]|];
      [auto | | |]; rewrite Hout in H by lia; discriminate. }
  destruct (Hin Hr) as (ts' & Hts & Hv & Ho & Hh & Hmi & Hs & Hus).
  rewrite Hts in H. injection H as ->.
  pose proof (toordinal_range d Hd) as Hdr.
  assert (Hsh : shift (opposite op) n = - shift op n).
  { destruct op; [contradiction| |]; unfold shift; cbn; lia. }
  destruct (compute_offset_shift ts (opposite op) n Hv Hn) as [Hin' _].
  destruct Hin' as (d' & Hd' & Hv' & Ho' & Hh' & Hmi' & Hs' & Hus');
    [rewrite Hsh; lia|].
  rewrite Hd'. f_equal. apply datetime_eq; try assumption; try congruence.
  rewrite Ho', Hsh, Ho. lia.
Qed.

Lemma compute_offset_inverse_witness :
  _compute_offset next_day_timestamp MINUS 1 = Ok test_timestamp.
Proof.
  apply (compute_offset_inverse test_timestamp next_day_timestamp PLUS 1);
    [exact test_timestamp_valid | lia | discriminate | reflexivity].
Defined.

(** X23.  Two shifts in the same direction are one shift by the sum of
    the days, errors included. *)
Theorem compute_offset_additive (d ts : datetime) (op : DateOp) (a b : Z) :
  valid d -> 0 <= a -> 0 <= b ->
  _compute_offset d op a = Ok ts ->
  _compute_offset ts op b = _compute_offset d op (a + b).
Proof.
  intros Hd Ha Hb H.
  destruct (compute_offset_shift d op a Hd Ha) as [Hin Hout].
  assert (Hr : a <= MAX_DELTA_DAYS /\
               1 <= toordinal d + shift op a <= MAXORDINAL).
  { destruct (Z.le_gt_cases a MAX_DELTA_DAYS) as [Hle | Hgt];
      [destruct (Z.le_gt_cases 1 (toordinal d + shift op a));
       [destruct (Z.le_gt_cases (toordinal d + shift op a) MAXORDINAL)|]|];
      [auto | | |]; rewrite Hout in H by lia; discriminate. }
  destruct (Hin Hr) as (ts' & Hts & Hv & Ho & Hh & Hmi & Hs & Hus).
  rewrite Hts in H. injection H as ->.
  pose proof (toordinal_range d Hd) as Hdr.
  assert (Hsh : shift op (a + b) = shift op a + shift op b)
    by (unfold shift; destruct (DateOp_eqb op MINUS); lia).
  assert (Hsa : shift op a = a \/ shift op a = - a)
    by (unfold shift; destruct (DateOp_eqb op MINUS); auto).
  assert (Hsb : shift op b = b /\ shift op a = a
                \/ shift op b = - b /\ shift op a = - a)
    by (unfold shift; destruct (DateOp_eqb op MINUS); auto).
  destruct (compute_offset_shift ts op b Hv Hb) as [Hin1 Hout1].
  destruct (compute_offset_shift d op (a + b) Hd ltac:(lia)) as [Hin2 Hout2].
  assert (Hdec : (b <= MAX_DELTA_DAYS /\
                  1 <= toordinal ts + shift op b <= MAXORDINAL)
                 \/ ~ (b <= MAX_DELTA_DAYS /\
                       1 <= toordinal ts + shift op b <= MAXORDINAL)) by lia.
  unfold MAX_DELTA_DAYS, MAXORDINAL in *.
  destruct Hdec as [Hyes | Hno].
  - destruct (Hin1 Hyes) as (t1 & Ht1 & Hv1 & Ho1 & Hh1 & Hmi1 & Hs1 & Hus1).
    destruct Hin2 as (t2 & Ht2 & Hv2 & Ho2 & Hh2 & Hmi2 & Hs2 & Hus2); [lia|].
    rewrite Ht1, Ht2. f_equal. apply datetime_eq; try assumption; try congruence.
    lia.
  - rewrite (Hout1 Hno), Hout2; [reflexivity|]. lia.
Qed.

Lemma compute_offset_additive_witness :
  _compute_offset next_day_timestamp PLUS 40
  = _compute_offset test_timestamp PLUS (1 + 40).
Proof.
  apply (compute_offset_additive test_timestamp next_day_timestamp PLUS 1 40);
    [exact test_timestamp_valid | lia | lia | reflexivity].
Defined.

Local Close Scope Z_scope.


(** ** A second call of [resolve_dateid] *)

Lemma is_field_brace_free (w : nat) (s : string) :
  is_field w s = true -> forall_chars not_lbrace s = true.
Proof.
  unfold is_field. intros H. apply andb_true_iff in H as [_ H].
  apply digits_brace_free. exact H.
Qed.

Lemma formatted_brace_free (k : DateType) (ts : datetime) :
  valid ts -> forall_chars not_lbrace (formatted k ts) = true.
Proof.
  intros Hv. pose proof (valid_fields_ok DATETIMEID ts Hv) as H.
  unfold fields_ok in H.
  repeat match goal with
         | F : _ && _ = true |- _ => apply andb_true_iff in F as [? ?]
         end.
  repeat match goal with
         | F : is_field _ _ = true |- _ => apply is_field_brace_free in F
         end.
  destruct k; unfold formatted; rewrite !forall_chars_app;
    repeat match goal with
           | F : forall_chars not_lbrace _ = true |- _ => rewrite F; clear F
           end; reflexivity.
Qed.

Lemma extract_value_brace_free (i : nat) (k : DateType) (sg : DateOp) (n : Z)
    (d : datetime) (v : S3DateValue) :
  valid d -> (0 <= n)%Z ->
  _extract_value (mkS3DateParam i k sg n) d = Ok v ->
  forall_chars not_lbrace (v_value v) = true.
Proof.
  intros Hd Hn.
  destruct (if DateOp_eqb sg NONE then Ok d else _compute_offset d sg n)
    as [ts|e] eqn:Ets;
    [|unfold _extract_value; cbn [sign value dt idx]; rewrite Ets;
      discriminate].
  rewrite (extract_value_of_timestamp (mkS3DateParam i k sg n) d ts Ets).
  intros H. injection H as <-. cbn [v_value dt].
  apply formatted_brace_free.
  destruct (DateOp_eqb sg NONE); [injection Ets as <-; exact Hd|].
  destruct (compute_offset_shift d sg n Hd Hn) as [Hin Hout].
  destruct (Z.le_gt_cases n MAX_DELTA_DAYS) as [Hle | Hgt];
    [destruct (Z.le_gt_cases 1 (toordinal d + shift sg n));
     [destruct (Z.le_gt_cases (toordinal d + shift sg n) MAXORDINAL)|]|];
    [| rewrite Hout in Ets by lia; discriminate ..].
  destruct Hin as (ts' & Hts & Hv & _); [auto|].
  rewrite Hts in Ets. injection Ets as <-. exact Hv.
Qed.

Lemma resolve_segments_again (d1 d2 : datetime) (segs : list segment) :
  Forall segment_ok segs -> valid d1 ->
  forall (l1 vals vals2 : list string),
    mapM (segment_value d1) segs = Ok vals ->
    mapM (segment_value d2) segs = Ok vals2 ->
    exists resolved_lst,
      mapM (fun param => _extract_value param d2)
           (params_of (List.length l1) segs) = Ok resolved_lst /\
      substitute resolved_lst (l1 ++ vals)%list = ((l1 ++ vals)%list, None).
Proof.
  intros Hok Hd1.
  induction segs as [|seg segs IH]; intros l1 vals vals2 Hvals Hvals2.
  - injection Hvals as <-. exists []. split; reflexivity.
  - inversion Hok as [|? ? Hseg Hrest]; subst.
    cbn [mapM] in Hvals, Hvals2.
    destruct (segment_value d1 seg) as [x|e] eqn:Ex; [|discriminate].
    destruct (mapM (segment_value d1) segs) as [xs|e] eqn:Exs; [|discriminate].
    cbn [bind] in Hvals. injection Hvals as <-.
    destruct (segment_value d2 seg) as [y|e] eqn:Ey; [|discriminate].
    destruct (mapM (segment_value d2) segs) as [ys|e] eqn:Eys; [|discriminate].
    destruct (IH Hrest (l1 ++ [x])%list xs ys eq_refl eq_refl)
      as (rl & Hrl & Hsub).
    rewrite length_app in Hrl. cbn [List.length] in Hrl.
    rewrite Nat.add_1_r in Hrl. rewrite <- app_assoc in Hsub.
    cbn [app] in Hsub.
    destruct seg as [s|pre k sg n post]; cbn [segment_value] in Ex, Ey.
    + exists rl. cbn [params_of]. split; [exact Hrl | exact Hsub].
    + destruct (_extract_value (mkS3DateParam 0 k sg n) d1) as [v1|e] eqn:Ev1;
        [|discriminate].
      destruct (_extract_value (mkS3DateParam 0 k sg n) d2) as [v2|e] eqn:Ev2;
        [|discriminate].
      cbn [bind] in Ex. injection Ex as <-.
      destruct Hseg as (Hn & _ & Hpre & Hpost).
      pose proof (extract_value_brace_free 0 k sg n d1 v1 Hd1 Hn Ev1) as Hv1.
      destruct (extract_value_idx _ _ _ Ev2) as [_ Htok].
      destruct (reconstruct_head (mkS3DateParam 0 k sg n)) as [o Ho].
      exists (mkS3DateValue (List.length l1) (token v2) (v_value v2) :: rl).
      cbn [params_of mapM]. rewrite extract_value_at, Ev2. cbn [bind].
      rewrite Hrl. cbn [bind]. split; [reflexivity|].
      cbn [substitute v_idx token v_value].
      rewrite update_at_app, Htok, Ho. unfold replace.
      rewrite replace_from_absent; [exact Hsub|].
      apply contains_absent_char. fold not_lbrace.
      rewrite !forall_chars_app, Hpre, Hv1, Hpost. reflexivity.
Qed.

(** X21.  After a call of [resolve_dateid] that succeeded, the object
    holds dates where the placeholders were: a later call that succeeds
    returns the URL of the first call, whatever its timestamp, and leaves
    the object as it is. *)
Theorem resolve_keeps_first_result (uri : string) (p : S3Path)
    (segs : list segment) (d1 d2 : datetime) (vals vals2 : list string) :
  S3Path_init uri = Ok p ->
  filter nonblank (split slash (path p)) = map segment_text segs ->
  Forall segment_ok segs ->
  valid d1 ->
  mapM (segment_value d1) segs = Ok vals ->
  mapM (segment_value d2) segs = Ok vals2 ->
  exists self self',
    S3DatePath_init uri = Ok self /\
    resolve_dateid self d1
    = (self', Ok ("s3://" ++ bucket p ++ "/" ++ join "/" vals)) /\
    resolve_dateid self' d2
    = (self', Ok ("s3://" ++ bucket p ++ "/" ++ join "/" vals)).
Proof.
  intros Hp Hsegs Hok Hd1 Hvals Hvals2.
  assert (Hdot : Forall (fun seg => forall_chars dot (segment_text seg) = true)
                   segs).
  { pose proof (split_forall_chars dot slash (path p)
                  (S3Path_init_path_dot uri p Hp)) as HF.
    rewrite Forall_forall in HF. apply Forall_forall. intros seg Hin.
    apply HF. apply (in_map segment_text) in Hin. rewrite <- Hsegs in Hin.
    apply filter_In in Hin as [Hin _]. exact Hin. }
  exists (mkS3DatePath p (map segment_text segs) (params_of 0 segs)),
    (mkS3DatePath p vals (params_of 0 segs)).
  split; [|split].
  - unfold S3DatePath_init. rewrite Hp. cbn [bind]. fold nonblank.
    rewrite Hsegs. unfold _parse_params.
    rewrite (parse_params_from_segments segs 0 Hok Hdot). reflexivity.
  - destruct (resolve_segments d1 segs Hok [] vals Hvals) as (rl & Hrl & Hsub).
    cbn [List.length app] in Hrl, Hsub.
    unfold resolve_dateid. cbn [_params _path_lst s3path].
    rewrite Hrl, Hsub. rewrite (S3Path_init_proto uri p Hp). reflexivity.
  - destruct (resolve_segments_again d1 d2 segs Hok Hd1 [] vals vals2
                Hvals Hvals2) as (rl & Hrl & Hsub).
    cbn [List.length app] in Hrl, Hsub.
    unfold resolve_dateid. cbn [_params _path_lst s3path].
    rewrite Hrl, Hsub. rewrite (S3Path_init_proto uri p Hp). reflexivity.
Qed.

Lemma resolve_keeps_first_result_witness :
  exists self self',
    S3DatePath_init "s3://test-bucket/path/some_{DATETIMEID-1}/{DATEID+2}"
    = Ok self /\
    resolve_dateid self test_timestamp
    = (self',
       Ok ("s3://" ++ "test-bucket" ++ "/"
           ++ join "/" ["path"; "some_2017-11-27_23-55-59"; "2017-11-30"])) /\
    resolve_dateid self' next_day_timestamp
    = (self',
       Ok ("s3://" ++ "test-bucket" ++ "/"
           ++ join "/" ["path"; "some_2017-11-27_23-55-59"; "2017-11-30"])).
Proof.
  apply (resolve_keeps_first_result
           "s3://test-bucket/path/some_{DATETIMEID-1}/{DATEID+2}"
           (mkS3Path "s3" "test-bucket" "path/some_{DATETIMEID-1}/{DATEID+2}")
           [Plain "path"; Hole "some_" DATETIMEID MINUS 1 "";
            Hole "" DATEID PLUS 2 ""]
           test_timestamp next_day_timestamp
           ["path"; "some_2017-11-27_23-55-59"; "2017-11-30"]
           ["path"; "some_2017-11-28_23-55-59"; "2017-12-01"]);
    try reflexivity.
  - repeat constructor; discriminate.
  - exact test_timestamp_valid.
Defined.
